(** * The voice-agent session hook and its caller, as a state machine

    A shallow embedding of [frontend/src/hooks/useWebRTC.ts] (the session
    hook: connection state, control-message router, transcript identity,
    mute) and of the parts of [frontend/src/App.tsx] that store what the
    hook emits (transcript upsert, bounded log buffer, clear-on-disconnect
    effect).

    The TypeScript types of the hook are erased at run time: the payload of
    an app message is [Record<string, unknown>] and every field is read
    through an unchecked [as] cast.  The embedding therefore keeps payload
    fields as JavaScript values and applies the JavaScript operators the
    source applies to them ([===], [!= null], [??], template literals). *)

From stdpp Require Import base decidable option strings list gmap pretty.
From Stdlib Require Import ZArith Lia.
From stdpp Require Import sorting.

Local Open Scope string_scope.
Local Open Scope list_scope.
Local Open Scope nat_scope.

(** ** JavaScript values *)

(** The primitive values a decoded control message can carry.  [JNum]
    stands for an integer-valued number whose decimal rendering is plain
    digits (magnitude below 10^21); fractions, NaN and objects are outside
    the model. *)
Inductive JsValue : Type :=
  | JUndefined
  | JNull
  | JBool (b : bool)
  | JNum (n : Z)
  | JStr (s : string).

#[global] Instance JsValue_eq_dec : EqDecision JsValue.
Proof. solve_decision. Defined.

(** [a === b] on primitives. *)
Definition strict_eq (a b : JsValue) : bool := bool_decide (a = b).

(** [v != null] is false exactly for [null] and [undefined]. *)
Definition nullish (v : JsValue) : bool :=
  match v with
  | JUndefined | JNull => true
  | _ => false
  end.

(** [v ?? d]. *)
Definition coalesce (v d : JsValue) : JsValue :=
  if nullish v then d else v.

(** String conversion inside a template literal. *)
Definition ToString (v : JsValue) : string :=
  match v with
  | JUndefined => "undefined"
  | JNull => "null"
  | JBool true => "true"
  | JBool false => "false"
  | JNum n => pretty n
  | JStr s => s
  end.

(** Truthiness of [string | null], as tested by [!sessionId]. *)
Definition truthy_session (s : option string) : bool :=
  match s with
  | Some s => negb (bool_decide (s = ""))
  | None => false
  end.

(** [2^53]: above it [n + 1] is no longer exact on a JavaScript number. *)
Definition MAX_EXACT : Z := 9007199254740992.

(** [++counter] on a JavaScript number holding a non-negative integer that
    was reached by counting up from 0: exact below [2^53]; at [2^53] the sum
    [2^53 + 1] rounds back to [2^53]. *)
Definition pre_increment (n : Z) : Z :=
  if (n <? MAX_EXACT)%Z then (n + 1)%Z else n.

(** [event.data]: either an object whose properties can be read (a missing
    property reads as [undefined]) or [null]/[undefined], on which the first
    property access throws. *)
Inductive EventData : Type :=
  | DataNullish
  | DataObject (fields : gmap string JsValue).

Definition prop (d : gmap string JsValue) (k : string) : JsValue :=
  default JUndefined (d !! k).

(** ** Data model of the hook *)

Inductive ConnectionStatus : Type := disconnected | connecting | connected.

#[global] Instance ConnectionStatus_eq_dec : EqDecision ConnectionStatus.
Proof. solve_decision. Defined.

(** The five members of the [PipelineStatus] union. *)
Definition is_PipelineStatus (v : JsValue) : Prop :=
  v = JStr "idle" ∨ v = JStr "listening" ∨ v = JStr "stt"
  ∨ v = JStr "llm" ∨ v = JStr "tts".

(** The two members of the [role] union. *)
Definition is_Role (v : JsValue) : Prop :=
  v = JStr "user" ∨ v = JStr "assistant".

Module TranscriptMessage.

Record t : Type := mk {
  id : string;
  role : JsValue;
  text : JsValue;
  timestamp : JsValue;
  final : JsValue;
}.

#[global] Instance transcript_eq_dec : EqDecision t.
Proof. solve_decision. Defined.

End TranscriptMessage.

Module LogMessage.

Record t : Type := mk {
  text : JsValue;
  timestamp : Z;
}.

#[global] Instance log_eq_dec : EqDecision t.
Proof. solve_decision. Defined.

End LogMessage.

(** The Daily call object, reduced to what the hook reads from it. *)
Record DailyCall : Type := mkCall {
  localAudio : bool;
}.

(** Transport operations the hook invokes, in the order issued. *)
Inductive TransportOp : Type :=
  | OpCreate
  | OpJoin
  | OpLeave
  | OpDestroy
  | OpSetLocalAudio (enabled : bool).

#[global] Instance TransportOp_eq_dec : EqDecision TransportOp.
Proof. solve_decision. Defined.

(** Module-level state of [useWebRTC.ts]. *)
Record Globals : Type := mkGlobals {
  globalUserMessageId : Z;
  globalAssistantMessageId : Z;
}.

(** State held by one [useWebRTC] instance.  [pipelineStatus] is declared
    [PipelineStatus] but is assigned from an unchecked cast. *)
Record Hook : Type := mkHook {
  connectionStatus : ConnectionStatus;
  pipelineStatus : JsValue;
  isMuted : bool;
  callObjectRef : option DailyCall;
}.

(** State held by [App].  [isConnectedDep] is the value of [isConnected]
    seen by the last run of the clear-on-disconnect effect ([None] before
    the first commit). *)
Record AppState : Type := mkApp {
  sessionId : option string;
  messages : list TranscriptMessage.t;
  logs : list LogMessage.t;
  currentText : string;
  isConnectedDep : option bool;
}.

(** What is in flight outside the program: [connect()] calls suspended on
    the credential fetch, [join] promises not yet settled, and the trace of
    transport operations. *)
Record Env : Type := mkEnv {
  pendingFetch : nat;
  pendingJoin : nat;
  transportLog : list TransportOp;
}.

Record World : Type := mkWorld {
  globals : Globals;
  hook : Hook;
  app : AppState;
  env : Env;
}.

(** *** Field updates *)

Definition with_globals (g : Globals) (w : World) : World :=
  mkWorld g (hook w) (app w) (env w).
Definition with_hook (h : Hook) (w : World) : World :=
  mkWorld (globals w) h (app w) (env w).
Definition with_app (a : AppState) (w : World) : World :=
  mkWorld (globals w) (hook w) a (env w).
Definition with_env (e : Env) (w : World) : World :=
  mkWorld (globals w) (hook w) (app w) e.

Definition setConnectionStatus (c : ConnectionStatus) (w : World) : World :=
  with_hook (mkHook c (pipelineStatus (hook w)) (isMuted (hook w))
               (callObjectRef (hook w))) w.
Definition setPipelineStatus (p : JsValue) (w : World) : World :=
  with_hook (mkHook (connectionStatus (hook w)) p (isMuted (hook w))
               (callObjectRef (hook w))) w.
Definition setIsMuted (m : bool) (w : World) : World :=
  with_hook (mkHook (connectionStatus (hook w)) (pipelineStatus (hook w)) m
               (callObjectRef (hook w))) w.
Definition setCallObjectRef (r : option DailyCall) (w : World) : World :=
  with_hook (mkHook (connectionStatus (hook w)) (pipelineStatus (hook w))
               (isMuted (hook w)) r) w.

Definition setSessionId (s : option string) (w : World) : World :=
  with_app (mkApp s (messages (app w)) (logs (app w)) (currentText (app w))
              (isConnectedDep (app w))) w.
Definition setMessages (f : list TranscriptMessage.t → list TranscriptMessage.t)
    (w : World) : World :=
  with_app (mkApp (sessionId (app w)) (f (messages (app w))) (logs (app w))
              (currentText (app w)) (isConnectedDep (app w))) w.
Definition setLogs (f : list LogMessage.t → list LogMessage.t)
    (w : World) : World :=
  with_app (mkApp (sessionId (app w)) (messages (app w)) (f (logs (app w)))
              (currentText (app w)) (isConnectedDep (app w))) w.
Definition setCurrentText (s : string) (w : World) : World :=
  with_app (mkApp (sessionId (app w)) (messages (app w)) (logs (app w)) s
              (isConnectedDep (app w))) w.
Definition setIsConnectedDep (d : option bool) (w : World) : World :=
  with_app (mkApp (sessionId (app w)) (messages (app w)) (logs (app w))
              (currentText (app w)) d) w.

Definition setPendingFetch (n : nat) (w : World) : World :=
  with_env (mkEnv n (pendingJoin (env w)) (transportLog (env w))) w.
Definition setPendingJoin (n : nat) (w : World) : World :=
  with_env (mkEnv (pendingFetch (env w)) n (transportLog (env w))) w.
Definition transport (op : TransportOp) (w : World) : World :=
  with_env (mkEnv (pendingFetch (env w)) (pendingJoin (env w))
              (transportLog (env w) ++ [op])) w.

(** ** [App.tsx]: the caller's stores *)

(** [handleStatusChange]: clear the current text when the status is neither
    ['stt'] nor ['listening']. *)
Definition handleStatusChange (status : JsValue) (w : World) : World :=
  if negb (strict_eq status (JStr "stt"))
     && negb (strict_eq status (JStr "listening"))
  then setCurrentText "" w
  else w.

(** The updater passed to [setMessages] by [handleTranscript]:
    [findIndex] on the id, then replace at that index or append. *)
Definition handleTranscript (message : TranscriptMessage.t)
    (prev : list TranscriptMessage.t) : list TranscriptMessage.t :=
  match list_find (λ m, TranscriptMessage.id m = TranscriptMessage.id message) prev with
  | Some (existingIndex, _) => <[existingIndex := message]> prev
  | None => prev ++ [message]
  end.

(** [l.slice(-k)]: the last [k] elements, all of [l] when it is shorter. *)
Definition slice_last {A} (k : nat) (l : list A) : list A :=
  drop (length l - k) l.

(** The updater passed to [setLogs] by [handleLog]. *)
Definition handleLog (log : LogMessage.t) (prev : list LogMessage.t)
    : list LogMessage.t :=
  slice_last 19 prev ++ [log].

(** ** [useWebRTC.ts]: the control-message router *)

(** Lines 79-84: the explicit [messageId] when it is not nullish, else the
    pre-incremented counter of the role (the user counter for ['user'], the
    assistant counter for every other role value). *)
Definition resolveMessageId (role messageId : JsValue) (g : Globals)
    : JsValue * Globals :=
  if negb (nullish messageId) then (messageId, g)
  else if strict_eq role (JStr "user") then
    let n := pre_increment (globalUserMessageId g) in
    (JNum n, mkGlobals n (globalAssistantMessageId g))
  else
    let n := pre_increment (globalAssistantMessageId g) in
    (JNum n, mkGlobals (globalUserMessageId g) n).

Definition compositeId (role messageId : JsValue) : string :=
  ToString role +:+ "-" +:+ ToString messageId.

(** The [TranscriptMessage] built at lines 87-93, [now] being [Date.now()]. *)
Definition buildTranscript (now : Z) (d : gmap string JsValue)
    (messageId : JsValue) : TranscriptMessage.t :=
  TranscriptMessage.mk
    (compositeId (prop d "role") messageId)
    (prop d "role")
    (prop d "text")
    (coalesce (prop d "timestamp") (JNum now))
    (coalesce (prop d "final") (JBool true)).

(** [handleAppMessage].  The body runs inside [try]/[catch]; the only
    throwing step is the property read on a nullish [event.data], which
    leaves every state untouched. *)
Definition handleAppMessage (now : Z) (data : EventData) (w : World) : World :=
  match data with
  | DataNullish => w
  | DataObject d =>
      if strict_eq (prop d "type") (JStr "status") then
        let status := prop d "status" in
        handleStatusChange status (setPipelineStatus status w)
      else if strict_eq (prop d "type") (JStr "transcript") then
        let '(messageId, g) :=
          resolveMessageId (prop d "role") (prop d "messageId") (globals w) in
        let message := buildTranscript now d messageId in
        setMessages (handleTranscript message) (with_globals g w)
      else if strict_eq (prop d "type") (JStr "log") then
        let log := LogMessage.mk (prop d "text") now in
        setLogs (handleLog log) w
      else w
  end.

(** ** [useWebRTC.ts]: connection state machine *)

(** How the two awaited teardown calls of [disconnect] settle. *)
Inductive Teardown : Type :=
  | TeardownOk
  | LeaveRejects
  | DestroyRejects.

(** [disconnect].  A rejected [await] throws out of the async body, so the
    statements after it do not run.  The two awaits are taken as one step. *)
Definition disconnect (t : Teardown) (w : World) : World :=
  match callObjectRef (hook w) with
  | Some _ =>
      match t with
      | LeaveRejects => transport OpLeave w
      | DestroyRejects => transport OpDestroy (transport OpLeave w)
      | TeardownOk =>
          setPipelineStatus (JStr "idle")
            (setConnectionStatus disconnected
               (setCallObjectRef None
                  (transport OpDestroy (transport OpLeave w))))
      end
  | None =>
      setPipelineStatus (JStr "idle") (setConnectionStatus disconnected w)
  end.

(** [connect], up to its first [await]: the guard, then [connecting] and the
    credential request. *)
Definition connect (w : World) : World :=
  if negb (bool_decide (connectionStatus (hook w) = disconnected))
     || negb (truthy_session (sessionId (app w)))
  then w
  else setPendingFetch (S (pendingFetch (env w)))
         (setConnectionStatus connecting w).

(** The [catch] block of [connect]. *)
Definition connect_catch (t : Teardown) (w : World) : World :=
  disconnect t (setConnectionStatus disconnected w).

(** [connect] resumed after the credential request.  On success the call
    object is created with [audioSource: true], stored in the ref, the
    handlers are registered and [join] is started. *)
Definition connect_resume (ok : bool) (t : Teardown) (w : World) : World :=
  if ok then
    setPendingJoin (S (pendingJoin (env w)))
      (transport OpJoin
         (setCallObjectRef (Some (mkCall true)) (transport OpCreate w)))
  else connect_catch t w.

(** The ['joined-meeting'], ['left-meeting'] and ['error'] handlers. *)
Definition on_joined_meeting (w : World) : World :=
  setPipelineStatus (JStr "idle") (setConnectionStatus connected w).
Definition on_left_meeting (w : World) : World :=
  setPipelineStatus (JStr "idle") (setConnectionStatus disconnected w).
Definition on_error (t : Teardown) (w : World) : World :=
  disconnect t (setConnectionStatus disconnected w).

(** [toggleMute]. *)
Definition toggleMute (w : World) : World :=
  match callObjectRef (hook w) with
  | Some call =>
      let currentMuteState := bool_decide (localAudio call = false) in
      setIsMuted (negb currentMuteState)
        (setCallObjectRef (Some (mkCall currentMuteState))
           (transport (OpSetLocalAudio currentMuteState) w))
  | None => w
  end.

Definition isConnected (w : World) : bool :=
  bool_decide (connectionStatus (hook w) = connected).

(** ** Rendering and events *)

(** The effect of [App] with dependency [[isConnected]]: it runs on the
    first commit and whenever [isConnected] differs from the value of the
    previous commit, and clears both stores when not connected. *)
Definition commit (w : World) : World :=
  let c := isConnected w in
  if decide (isConnectedDep (app w) = Some c) then w
  else
    let w' := setIsConnectedDep (Some c) w in
    if c then w' else setMessages (λ _, []) (setLogs (λ _, []) w').

(** What can happen to a mounted application.  Transport events carry the
    handler's inputs; events that reach [disconnect] carry the way its
    teardown settles. *)
Inductive Event : Type :=
  | SessionCreated (session_id : string)
  | ConnectCalled
  | FetchSettled (ok : bool) (t : Teardown)
  | JoinSettled (ok : bool) (t : Teardown)
  | JoinedMeeting
  | LeftMeeting
  | TransportError (t : Teardown)
  | AppMessage (now : Z) (data : EventData)
  | DisconnectCalled (t : Teardown)
  | ToggleMuteCalled.

(** Transport events are delivered by the call object held in the ref. *)
Definition has_transport (w : World) : bool :=
  bool_decide (is_Some (callObjectRef (hook w))).

Definition handle (ev : Event) (w : World) : World :=
  match ev with
  | SessionCreated s => setSessionId (Some s) w
  | ConnectCalled => connect w
  | FetchSettled ok t =>
      match pendingFetch (env w) with
      | S n => connect_resume ok t (setPendingFetch n w)
      | O => w
      end
  | JoinSettled ok t =>
      match pendingJoin (env w) with
      | S n => if ok then setPendingJoin n w
               else connect_catch t (setPendingJoin n w)
      | O => w
      end
  | JoinedMeeting => if has_transport w then on_joined_meeting w else w
  | LeftMeeting => if has_transport w then on_left_meeting w else w
  | TransportError t => if has_transport w then on_error t w else w
  | AppMessage now data =>
      if has_transport w then handleAppMessage now data w else w
  | DisconnectCalled t => disconnect t w
  | ToggleMuteCalled => toggleMute w
  end.

(** One event: the handler runs to completion, then React commits. *)
Definition step (w : World) (ev : Event) : World := commit (handle ev w).

Definition run (w : World) (evs : list Event) : World := foldl step w evs.

(** The application after its first commit, in a fresh JavaScript realm. *)
Definition initial : World :=
  commit (mkWorld (mkGlobals 0 0)
            (mkHook disconnected (JStr "idle") false None)
            (mkApp None [] [] "" None)
            (mkEnv 0 0 [])).

(** States the application can be in. *)
Definition reachable (w : World) : Prop := ∃ evs, w = run initial evs.

(** ** Message builders used in examples *)

Definition status_msg (s : JsValue) : EventData :=
  DataObject {[ "type" := JStr "status"; "status" := s ]}.
Definition transcript_fields (role messageId : JsValue) (text : string)
    (final : JsValue) : gmap string JsValue :=
  {[ "type" := JStr "transcript"; "role" := role; "messageId" := messageId;
     "text" := JStr text; "final" := final ]}.
(** A transcript payload without the [messageId] property. *)
Definition idless_fields (role : JsValue) (text : string) (final : JsValue)
    : gmap string JsValue :=
  {[ "type" := JStr "transcript"; "role" := role; "text" := JStr text;
     "final" := final ]}.
Definition transcript_msg (role messageId : JsValue) (text : string)
    (final : JsValue) : EventData :=
  DataObject (transcript_fields role messageId text final).
Definition idless_msg (role : JsValue) (text : string) (final : JsValue)
    : EventData :=
  DataObject (idless_fields role text final).

(** ** Concrete worlds used in examples *)

(** Suspended in [connect()] on the credential request: no call object yet. *)
Definition w_fetching : World :=
  run initial [SessionCreated "s1"; ConnectCalled].

(** The call object exists and [join] is under way; not yet joined. *)
Definition w_joining : World :=
  run initial [SessionCreated "s1"; ConnectCalled; FetchSettled true TeardownOk].

(** Joined. *)
Definition w_connected : World :=
  run w_joining [JoinedMeeting; JoinSettled true TeardownOk].

(** Joined, then the bot reported that it is listening. *)
Definition w_listening : World :=
  run w_connected [AppMessage 5 (status_msg (JStr "listening"))].

(** Muted in a first connection, disconnected, connected again. *)
Definition w_reconnected_after_mute : World :=
  run w_connected
    [ToggleMuteCalled; DisconnectCalled TeardownOk; ConnectCalled;
     FetchSettled true TeardownOk; JoinedMeeting; JoinSettled true TeardownOk].

(** [n] log messages, the [k]-th received at time [k] with text [k]. *)
Definition log_batch (n : nat) : list (Z * gmap string JsValue) :=
  (λ k : nat, (Z.of_nat k,
               {[ "type" := JStr "log"; "text" := JNum (Z.of_nat k) ]}))
    <$> seq 0 n.

(** One connection in which an id-less user fragment is received, then a
    disconnect and a second connection. *)
Definition second_session : list Event :=
  [AppMessage 10 (idless_msg (JStr "user") "first" (JBool true));
   DisconnectCalled TeardownOk; ConnectCalled; FetchSettled true TeardownOk;
   JoinedMeeting; JoinSettled true TeardownOk].

(** A connection that has received [2^53] id-less user fragments. *)
Definition w_saturated : World :=
  run w_connected
    (repeat (AppMessage 10 (idless_msg (JStr "user") "x" (JBool true)))
       (Z.to_nat MAX_EXACT)).

(** One utterance of the assistant streamed as three updates. *)
Definition streamed_answer : list (Z * gmap string JsValue) :=
  [(1%Z, transcript_fields (JStr "assistant") (JNum 7) "The" (JBool false));
   (2%Z, transcript_fields (JStr "assistant") (JNum 7) "The book" (JBool false));
   (3%Z, transcript_fields (JStr "assistant") (JNum 7) "The book ends." (JBool true))].

(** A partial user utterance, and the update that completes it. *)
Definition partial_then_final_1 : list Event :=
  [SessionCreated "s1"; ConnectCalled; FetchSettled true TeardownOk;
   JoinedMeeting;
   AppMessage 1 (transcript_msg (JStr "user") (JNum 1) "hello" (JBool false))].
Definition partial_then_final_2 : list Event :=
  [AppMessage 2 (transcript_msg (JStr "user") (JNum 1) "hello there" (JBool true))].

(** ** Vocabulary of the statements *)

(** A batch of app messages handed to the router one after the other, each
    with the clock reading at its receipt. *)
Definition deliver (w : World) (ms : list (Z * gmap string JsValue)) : World :=
  foldl (λ w m, handleAppMessage m.1 (DataObject m.2) w) w ms.

Definition is_status (d : gmap string JsValue) : bool :=
  strict_eq (prop d "type") (JStr "status").

Definition is_transcript (d : gmap string JsValue) : bool :=
  strict_eq (prop d "type") (JStr "transcript").

Definition is_log (d : gmap string JsValue) : bool :=
  strict_eq (prop d "type") (JStr "log").

(** The sequence number and the identity the router gives a transcript
    payload under the counters [g]. *)
Definition mintedNumber (d : gmap string JsValue) (g : Globals) : JsValue :=
  (resolveMessageId (prop d "role") (prop d "messageId") g).1.
Definition mintedId (d : gmap string JsValue) (g : Globals) : string :=
  compositeId (prop d "role") (mintedNumber d g).

(** The fallback counter a role value selects. *)
Definition counter_of (role : JsValue) (g : Globals) : Z :=
  if strict_eq role (JStr "user") then globalUserMessageId g
  else globalAssistantMessageId g.

(** Every status message of the trace carries a member of the union. *)
Definition status_values_typed (evs : list Event) : Prop :=
  Forall (λ ev, match ev with
                | AppMessage _ (DataObject d) =>
                    is_status d = true → is_PipelineStatus (prop d "status")
                | _ => True
                end) evs.

(** Every transcript message of the trace carries ['user'] or ['assistant']. *)
Definition roles_typed (evs : list Event) : Prop :=
  Forall (λ ev, match ev with
                | AppMessage _ (DataObject d) =>
                    is_transcript d = true → is_Role (prop d "role")
                | _ => True
                end) evs.


(** The log entry the router builds from a [log] payload received at [m.1]. *)
Definition log_entry (m : Z * gmap string JsValue) : LogMessage.t :=
  LogMessage.mk (prop m.2 "text") m.1.

(** A transcript update for the utterance [messageId] of [role]. *)
Definition update_of (role messageId : JsValue)
    (m : Z * gmap string JsValue) : Prop :=
  is_transcript m.2 = true ∧ prop m.2 "role" = role
  ∧ prop m.2 "messageId" = messageId.

(** An entry built by the router: its role is typed and its id starts with
    that role. *)
Definition built_by_router (m : TranscriptMessage.t) : Prop :=
  is_Role (TranscriptMessage.role m)
  ∧ ∃ x, TranscriptMessage.id m = compositeId (TranscriptMessage.role m) x.


(** The stored entries carrying a given id. *)
Definition entries_with_id (i : string) (l : list TranscriptMessage.t)
    : list TranscriptMessage.t :=
  filter (λ m, TranscriptMessage.id m = i) l.

(** A connection that has received one id-less user fragment. *)
Definition one_idless_fragment : list Event :=
  [SessionCreated "s1"; ConnectCalled; FetchSettled true TeardownOk;
   JoinedMeeting; AppMessage 1 (idless_msg (JStr "user") "hi" (JBool true))].

(** ** [ChatInterface.tsx]: the ordered transcript view *)

(** The operand a stored timestamp contributes to [a.timestamp - b.timestamp].
    Number timestamps are modelled; for any other stored value the result is
    [None] (the subtraction is [NaN] or needs string parsing, and the order
    the engine then produces is not fixed). *)
Definition timestamp_number (m : TranscriptMessage.t) : option Z :=
  match TranscriptMessage.timestamp m with
  | JNum n => Some n
  | _ => None
  end.

(** The messages paired with their numeric timestamps, when all have one. *)
Definition keyed (l : list TranscriptMessage.t)
    : option (list (Z * TranscriptMessage.t)) :=
  mapM (λ m, k ← timestamp_number m; Some (k, m)) l.

(** The comparator [(a, b) => a.timestamp - b.timestamp]. *)
Definition compareFn (a b : Z * TranscriptMessage.t) : Z := (a.1 - b.1)%Z.

(** [Array.prototype.sort] is stable, and for a consistent comparator its
    result is the one stable ordering; it is computed here by insertion,
    an element going before the first one it does not compare greater
    than. *)
Fixpoint sort_insert (x : Z * TranscriptMessage.t)
    (l : list (Z * TranscriptMessage.t)) : list (Z * TranscriptMessage.t) :=
  match l with
  | [] => [x]
  | y :: l' =>
      if (compareFn x y <=? 0)%Z then x :: y :: l' else y :: sort_insert x l'
  end.

Definition stable_sort (l : list (Z * TranscriptMessage.t))
    : list (Z * TranscriptMessage.t) :=
  foldr sort_insert [] l.

(** [sortedMessages]: [[...messages].sort(compareFn)]. *)
Definition sortedMessages (l : list TranscriptMessage.t)
    : option (list TranscriptMessage.t) :=
  (λ kl, snd <$> stable_sort kl) <$> keyed l.

(** An earlier entry of the view is not later in time than a later one. *)
Definition not_later (a b : TranscriptMessage.t) : Prop :=
  ∃ ta tb, TranscriptMessage.timestamp a = JNum ta
           ∧ TranscriptMessage.timestamp b = JNum tb ∧ (ta ≤ tb)%Z.

(** Three entries received out of time order, two of them at the same
    time. *)
Definition out_of_order : list TranscriptMessage.t :=
  [TranscriptMessage.mk "assistant-1" (JStr "assistant") (JStr "c") (JNum 5) (JBool true);
   TranscriptMessage.mk "user-1" (JStr "user") (JStr "a") (JNum 1) (JBool true);
   TranscriptMessage.mk "user-2" (JStr "user") (JStr "b") (JNum 5) (JBool true)].

(** ** Vocabulary of the further statements *)

(** Every transcript message of the trace omits [messageId] and carries
    ['user'] or ['assistant']. *)
Definition idless_typed (evs : list Event) : Prop :=
  Forall (λ ev, match ev with
                | AppMessage _ (DataObject d) =>
                    is_transcript d = true →
                    nullish (prop d "messageId") = true
                    ∧ is_Role (prop d "role")
                | _ => True
                end) evs.

(** A stored entry whose id was minted from a counter value already passed
    under the counters [g]. *)
Definition minted_below (g : Globals) (m : TranscriptMessage.t) : Prop :=
  ∃ r n, is_Role r ∧ TranscriptMessage.id m = compositeId r (JNum n)
         ∧ (n ≤ counter_of r g)%Z.


(** The payload is dropped by the router: no readable data, or a [type]
    that is none of the three. *)
Definition unrouted (data : EventData) : Prop :=
  match data with
  | DataNullish => True
  | DataObject d =>
      is_status d = false ∧ is_transcript d = false ∧ is_log d = false
  end.

(** The user disconnects while [connect()] is still waiting for the
    credentials, which then arrive. *)
Definition disconnect_during_fetch (t t' : Teardown) : list Event :=
  [ConnectCalled; DisconnectCalled t; FetchSettled true t'; JoinedMeeting].



(** Every transcript message of the trace carries a number as [timestamp],
    or none. *)
Definition timestamps_typed (evs : list Event) : Prop :=
  Forall (λ ev, match ev with
                | AppMessage _ (DataObject d) =>
                    is_transcript d = true →
                    nullish (prop d "timestamp") = true
                    ∨ ∃ n, prop d "timestamp" = JNum n
                | _ => True
                end) evs.


(** A connection that receives a partial utterance and an answer, both
    without timestamps. *)
Definition two_untimed : list Event :=
  [SessionCreated "s1"; ConnectCalled; FetchSettled true TeardownOk;
   JoinedMeeting;
   AppMessage 7 (transcript_msg (JStr "user") (JNum 1) "hi" (JBool true));
   AppMessage 3 (transcript_msg (JStr "assistant") (JNum 1) "Hello" (JBool true))].

(** No session id was ever obtained: the session request failed, or
    answered with an empty id. *)
Definition sessionless (evs : list Event) : Prop :=
  Forall (λ ev, match ev with
                | SessionCreated s => s = ""
                | _ => True
                end) evs.

(** Nothing has happened: disconnected and idle, no call object, nothing
    pending, no transport operation, both stores empty. *)
Definition untouched (w : World) : Prop :=
  hook w = mkHook disconnected (JStr "idle") false None
  ∧ env w = mkEnv 0 0 []
  ∧ truthy_session (sessionId (app w)) = false
  ∧ messages (app w) = [] ∧ logs (app w) = [].

(** * Properties *)

(** ** The router, branch by branch *)

Lemma strict_eq_true a b : strict_eq a b = true ↔ a = b.
Proof. unfold strict_eq. apply bool_decide_eq_true. Qed.

Lemma is_transcript_not_status d : is_transcript d = true → is_status d = false.
Proof.
  unfold is_transcript, is_status. intros H%strict_eq_true. rewrite H.
  reflexivity.
Qed.

Lemma is_log_not_status d : is_log d = true → is_status d = false.
Proof.
  unfold is_log, is_status. intros H%strict_eq_true. rewrite H. reflexivity.
Qed.

Lemma is_log_not_transcript d : is_log d = true → is_transcript d = false.
Proof.
  unfold is_log, is_transcript. intros H%strict_eq_true. rewrite H.
  reflexivity.
Qed.

Lemma handleAppMessage_status now d w :
  is_status d = true →
  handleAppMessage now (DataObject d) w
  = handleStatusChange (prop d "status") (setPipelineStatus (prop d "status") w).
Proof. unfold is_status. intros H. simpl. rewrite H. reflexivity. Qed.

Lemma handleAppMessage_transcript now d w :
  is_transcript d = true →
  handleAppMessage now (DataObject d) w
  = setMessages (handleTranscript (buildTranscript now d (mintedNumber d (globals w))))
      (with_globals (resolveMessageId (prop d "role") (prop d "messageId") (globals w)).2 w).
Proof.
  intros H. pose proof (is_transcript_not_status d H) as Hs.
  unfold is_status, is_transcript in *. simpl. rewrite Hs, H.
  unfold mintedNumber.
  destruct (resolveMessageId _ _ _) as [m g]. reflexivity.
Qed.

Lemma handleAppMessage_log now d w :
  is_log d = true →
  handleAppMessage now (DataObject d) w
  = setLogs (handleLog (LogMessage.mk (prop d "text") now)) w.
Proof.
  intros H. pose proof (is_log_not_status d H) as Hs.
  pose proof (is_log_not_transcript d H) as Ht.
  unfold is_status, is_transcript, is_log in *. simpl. rewrite Hs, Ht, H.
  reflexivity.
Qed.

Lemma handleAppMessage_other now d w :
  is_status d = false → is_transcript d = false → is_log d = false →
  handleAppMessage now (DataObject d) w = w.
Proof.
  unfold is_status, is_transcript, is_log. intros Hs Ht Hl. simpl.
  rewrite Hs, Ht, Hl. reflexivity.
Qed.

(** The four ways a payload can be routed. *)
Lemma handleAppMessage_cases now data w :
  (handleAppMessage now data w = w)
  ∨ (∃ d, data = DataObject d ∧ is_status d = true)
  ∨ (∃ d, data = DataObject d ∧ is_transcript d = true)
  ∨ (∃ d, data = DataObject d ∧ is_log d = true).
Proof.
  destruct data as [|d]; [left; reflexivity|].
  destruct (is_status d) eqn:Hs; [right; left; eauto|].
  destruct (is_transcript d) eqn:Ht; [right; right; left; eauto|].
  destruct (is_log d) eqn:Hl; [right; right; right; eauto|].
  left. by apply handleAppMessage_other.
Qed.

Lemma hook_handleStatusChange s w : hook (handleStatusChange s w) = hook w.
Proof. unfold handleStatusChange. by destruct (_ && _). Qed.

(** The router never touches the connection state, the mute flag or the
    call object; only a status message touches the pipeline status. *)
Lemma handleAppMessage_connection now data w :
  connectionStatus (hook (handleAppMessage now data w)) = connectionStatus (hook w)
  ∧ isMuted (hook (handleAppMessage now data w)) = isMuted (hook w)
  ∧ callObjectRef (hook (handleAppMessage now data w)) = callObjectRef (hook w).
Proof.
  destruct (handleAppMessage_cases now data w)
    as [->|[(d&->&H)|[(d&->&H)|(d&->&H)]]]; [done|..].
  - rewrite handleAppMessage_status, hook_handleStatusChange by done. done.
  - rewrite handleAppMessage_transcript by done. done.
  - rewrite handleAppMessage_log by done. done.
Qed.

Lemma handleAppMessage_pipeline_other now data w :
  (∀ d, data = DataObject d → is_status d = false) →
  pipelineStatus (hook (handleAppMessage now data w)) = pipelineStatus (hook w).
Proof.
  intros Hns.
  destruct (handleAppMessage_cases now data w)
    as [->|[(d&->&H)|[(d&->&H)|(d&->&H)]]]; [done|..].
  - rewrite (Hns d eq_refl) in H. done.
  - rewrite handleAppMessage_transcript by done. done.
  - rewrite handleAppMessage_log by done. done.
Qed.

(** ** C1: status messages and the connection state *)

(** C1, as the code has it: a [status] message sets the pipeline status to
    the value it carries whatever the connection state is ([connected],
    [connecting] or [disconnected]); the router never changes the connection
    state, and a message that is not a [status] message leaves the pipeline
    status as it was. *)
Theorem C1_status_applied_in_every_connection_state :
  ∀ (now : Z) (d : gmap string JsValue) (w : World),
    (is_status d = true →
       pipelineStatus (hook (handleAppMessage now (DataObject d) w))
       = prop d "status")
    ∧ (is_status d = false →
       pipelineStatus (hook (handleAppMessage now (DataObject d) w))
       = pipelineStatus (hook w))
    ∧ connectionStatus (hook (handleAppMessage now (DataObject d) w))
      = connectionStatus (hook w).
Proof.
  intros now d w. split_and!.
  - intros H. rewrite handleAppMessage_status, hook_handleStatusChange by done.
    reflexivity.
  - intros H. apply handleAppMessage_pipeline_other. by intros ? [= <-].
  - apply handleAppMessage_connection.
Qed.

Lemma C1_status_applied_witness :
  connectionStatus (hook w_joining) = connecting
  ∧ is_status {[ "type" := JStr "status"; "status" := JStr "stt" ]} = true
  ∧ pipelineStatus
      (hook (handleAppMessage 9
               (DataObject {[ "type" := JStr "status"; "status" := JStr "stt" ]})
               w_joining))
    = JStr "stt".
Proof.
  split; [reflexivity|]. split; [reflexivity|].
  exact (proj1 (C1_status_applied_in_every_connection_state 9
                  {[ "type" := JStr "status"; "status" := JStr "stt" ]}
                  w_joining) eq_refl).
Defined.

(** C1 as stated fails: while the state is [connecting] (call object
    created, not yet joined) a delivered [status] message changes the
    pipeline status from ['idle'] to ['listening']; the same happens in
    state [disconnected] after a ['left-meeting'] event. *)
Lemma C1_status_not_ignored_while_connecting :
  connectionStatus (hook w_joining) = connecting
  ∧ pipelineStatus (hook w_joining) = JStr "idle"
  ∧ pipelineStatus
      (hook (step w_joining (AppMessage 5 (status_msg (JStr "listening")))))
    = JStr "listening"
  ∧ connectionStatus (hook (run w_connected [LeftMeeting])) = disconnected
  ∧ pipelineStatus
      (hook (run w_connected
               [LeftMeeting; AppMessage 5 (status_msg (JStr "listening"))]))
    = JStr "listening".
Proof. vm_compute. done. Qed.

(** ** C2: [disconnect] *)

Lemma disconnect_no_transport t w :
  callObjectRef (hook w) = None →
  disconnect t w
  = setPipelineStatus (JStr "idle") (setConnectionStatus disconnected w).
Proof. unfold disconnect. intros ->. reflexivity. Qed.

Lemma disconnect_ok_ref w : callObjectRef (hook (disconnect TeardownOk w)) = None.
Proof. unfold disconnect. by destruct (callObjectRef (hook w)) eqn:E. Qed.

(** C2, as the code has it: with no call object in the ref, [disconnect]
    issues no transport operation and sets the state to [disconnected] and
    the pipeline status to ['idle'] (so it changes nothing only when the
    state already was [disconnected]/['idle']); with a call object whose
    [leave] and [destroy] both resolve, it issues [leave] then [destroy],
    clears the ref and sets [disconnected]/['idle']; and it is idempotent:
    a second call leaves the state as such a first call left it. *)
Theorem C2_disconnect_idempotent_when_teardown_resolves :
  ∀ (w : World),
    (callObjectRef (hook w) = None →
       ∀ t, disconnect t w
            = setPipelineStatus (JStr "idle") (setConnectionStatus disconnected w)
            ∧ transportLog (env (disconnect t w)) = transportLog (env w))
    ∧ (callObjectRef (hook w) = None →
       connectionStatus (hook w) = disconnected →
       pipelineStatus (hook w) = JStr "idle" →
       ∀ t, disconnect t w = w)
    ∧ (is_Some (callObjectRef (hook w)) →
       connectionStatus (hook (disconnect TeardownOk w)) = disconnected
       ∧ pipelineStatus (hook (disconnect TeardownOk w)) = JStr "idle"
       ∧ callObjectRef (hook (disconnect TeardownOk w)) = None
       ∧ transportLog (env (disconnect TeardownOk w))
         = transportLog (env w) ++ [OpLeave; OpDestroy])
    ∧ (∀ t, disconnect t (disconnect TeardownOk w) = disconnect TeardownOk w).
Proof.
  intros w. split_and!.
  - intros Href t. rewrite disconnect_no_transport by done. done.
  - intros Href Hc Hp t. rewrite disconnect_no_transport by done.
    destruct w as [g [c p m r] a e]. simpl in *. by subst.
  - intros [call Href]. unfold disconnect. rewrite Href. simpl.
    split_and!; try reflexivity. by rewrite <- app_assoc.
  - intros t. rewrite (disconnect_no_transport t) by apply disconnect_ok_ref.
    unfold disconnect. by destruct (callObjectRef (hook w)).
Qed.

Lemma C2_disconnect_witness :
  is_Some (callObjectRef (hook w_listening))
  ∧ connectionStatus (hook (disconnect TeardownOk w_listening)) = disconnected
  ∧ pipelineStatus (hook (disconnect TeardownOk w_listening)) = JStr "idle"
  ∧ callObjectRef (hook (disconnect TeardownOk w_listening)) = None
  ∧ transportLog (env (disconnect TeardownOk w_listening))
    = transportLog (env w_listening) ++ [OpLeave; OpDestroy]
  ∧ callObjectRef (hook initial) = None
  ∧ connectionStatus (hook initial) = disconnected
  ∧ pipelineStatus (hook initial) = JStr "idle"
  ∧ disconnect TeardownOk initial = initial.
Proof.
  pose proof (C2_disconnect_idempotent_when_teardown_resolves w_listening)
    as (_ & _ & H3 & _).
  pose proof (C2_disconnect_idempotent_when_teardown_resolves initial)
    as (_ & H2 & _ & _).
  assert (Hs : is_Some (callObjectRef (hook w_listening))) by (vm_compute; eauto).
  destruct (H3 Hs) as (Ha & Hb & Hc & Hd).
  split; [exact Hs|]. split; [exact Ha|]. split; [exact Hb|].
  split; [exact Hc|]. split; [exact Hd|].
  split; [reflexivity|]. split; [reflexivity|]. split; [reflexivity|].
  exact (H2 eq_refl eq_refl eq_refl TeardownOk).
Defined.

(** C2 as stated fails twice.  With no call object yet (suspended on the
    credential request, state [connecting]) [disconnect] is not a no-op: it
    moves the state to [disconnected].  With a joined call object whose
    [leave] rejects, the state is not set: it stays [connected] with
    pipeline status ['listening'] and the ref is kept; likewise when
    [destroy] rejects. *)
Lemma C2_disconnect_not_noop_and_not_unconditional :
  (callObjectRef (hook w_fetching) = None
   ∧ connectionStatus (hook w_fetching) = connecting
   ∧ connectionStatus (hook (step w_fetching (DisconnectCalled TeardownOk)))
     = disconnected)
  ∧ (callObjectRef (hook w_listening) = Some (mkCall true)
     ∧ connectionStatus (hook (step w_listening (DisconnectCalled LeaveRejects)))
       = connected
     ∧ pipelineStatus (hook (step w_listening (DisconnectCalled LeaveRejects)))
       = JStr "listening"
     ∧ callObjectRef (hook (step w_listening (DisconnectCalled LeaveRejects)))
       = Some (mkCall true)
     ∧ connectionStatus (hook (step w_listening (DisconnectCalled DestroyRejects)))
       = connected).
Proof. vm_compute. done. Qed.

(** ** C6: values of the pipeline status *)

Lemma hook_commit w : hook (commit w) = hook w.
Proof.
  unfold commit. destruct (decide _); [done|]. by destruct (isConnected w).
Qed.

Lemma globals_commit w : globals (commit w) = globals w.
Proof.
  unfold commit. destruct (decide _); [done|]. by destruct (isConnected w).
Qed.

Lemma disconnect_pipeline t w :
  pipelineStatus (hook (disconnect t w)) = pipelineStatus (hook w)
  ∨ pipelineStatus (hook (disconnect t w)) = JStr "idle".
Proof.
  unfold disconnect. destruct (callObjectRef (hook w)); [destruct t|]; auto.
Qed.

(** After any event the pipeline status is what it was, or ['idle'], or the
    value carried by the status message just handled. *)
Lemma step_pipeline w ev :
  pipelineStatus (hook (step w ev)) = pipelineStatus (hook w)
  ∨ pipelineStatus (hook (step w ev)) = JStr "idle"
  ∨ ∃ now d, ev = AppMessage now (DataObject d) ∧ is_status d = true
             ∧ pipelineStatus (hook (step w ev)) = prop d "status".
Proof.
  unfold step. rewrite hook_commit. destruct ev; simpl.
  - by left.
  - unfold connect. destruct (_ || _); by left.
  - destruct (pendingFetch (env w)); [by left|].
    unfold connect_resume, connect_catch. destruct ok; [by left|].
    destruct (disconnect_pipeline t
                (setConnectionStatus disconnected (setPendingFetch n w))); auto.
  - destruct (pendingJoin (env w)); [by left|].
    unfold connect_catch. destruct ok; [by left|].
    destruct (disconnect_pipeline t
                (setConnectionStatus disconnected (setPendingJoin n w))); auto.
  - destruct (has_transport w); auto.
  - destruct (has_transport w); auto.
  - destruct (has_transport w); [|by left]. unfold on_error.
    destruct (disconnect_pipeline t (setConnectionStatus disconnected w)); auto.
  - destruct (has_transport w); [|by left].
    destruct data as [|d]; [by left|].
    destruct (is_status d) eqn:Hs.
    + right; right. exists now, d. split_and!; try done.
      rewrite handleAppMessage_status, hook_handleStatusChange by done. done.
    + left. apply handleAppMessage_pipeline_other. by intros ? [= <-].
  - destruct (disconnect_pipeline t w); auto.
  - unfold toggleMute. destruct (callObjectRef (hook w)); by left.
Qed.

Lemma run_snoc w evs ev : run w (evs ++ [ev]) = step (run w evs) ev.
Proof. unfold run. by rewrite foldl_app. Qed.

Lemma run_app w evs1 evs2 : run w (evs1 ++ evs2) = run (run w evs1) evs2.
Proof. unfold run. by rewrite foldl_app. Qed.

Lemma idle_is_PipelineStatus : is_PipelineStatus (JStr "idle").
Proof. by left. Qed.

(** C6, as the code has it: the router stores the [status] field of a
    status message verbatim, without validating it, so the pipeline status
    is one of the five values as long as every status message received so
    far carried one of them. *)
Theorem C6_pipeline_status_in_enum_when_messages_typed :
  ∀ (evs : list Event),
    status_values_typed evs →
    is_PipelineStatus (pipelineStatus (hook (run initial evs))).
Proof.
  intros evs. induction evs as [|ev evs IH] using rev_ind; intros Hty.
  - apply idle_is_PipelineStatus.
  - apply Forall_app in Hty as [Hevs Hev].
    apply Forall_cons in Hev as [Hev _]. rewrite run_snoc.
    destruct (step_pipeline (run initial evs) ev)
      as [->|[->|(now & d & -> & Hs & ->)]].
    + by apply IH.
    + apply idle_is_PipelineStatus.
    + by apply Hev.
Qed.

Lemma C6_pipeline_status_witness :
  status_values_typed
    [SessionCreated "s1"; ConnectCalled; FetchSettled true TeardownOk;
     JoinedMeeting; AppMessage 5 (status_msg (JStr "llm"))]
  ∧ is_PipelineStatus
      (pipelineStatus
         (hook (run initial
                  [SessionCreated "s1"; ConnectCalled;
                   FetchSettled true TeardownOk; JoinedMeeting;
                   AppMessage 5 (status_msg (JStr "llm"))]))).
Proof.
  assert (H : status_values_typed
    [SessionCreated "s1"; ConnectCalled; FetchSettled true TeardownOk;
     JoinedMeeting; AppMessage 5 (status_msg (JStr "llm"))]).
  { unfold status_values_typed.
    repeat (apply Forall_cons; split; [exact I|]).
    apply Forall_cons; split; [|apply Forall_nil; exact I].
    intros _. right; right; right; left. reflexivity. }
  split; [exact H|].
  exact (C6_pipeline_status_in_enum_when_messages_typed _ H).
Defined.

(** C6 as stated fails: a status message carrying ['warming-up'] (or no
    [status] field at all) leaves the pipeline status outside the five
    values. *)
Lemma C6_unknown_status_stored :
  pipelineStatus
    (hook (step w_connected (AppMessage 5 (status_msg (JStr "warming-up")))))
  = JStr "warming-up"
  ∧ ¬ is_PipelineStatus
        (pipelineStatus
           (hook (step w_connected (AppMessage 5 (status_msg (JStr "warming-up"))))))
  ∧ pipelineStatus
      (hook (step w_connected
               (AppMessage 5 (DataObject {[ "type" := JStr "status" ]}))))
    = JUndefined.
Proof.
  split_and!; [by vm_compute| |by vm_compute].
  assert (pipelineStatus
    (hook (step w_connected (AppMessage 5 (status_msg (JStr "warming-up")))))
    = JStr "warming-up") as -> by (by vm_compute).
  unfold is_PipelineStatus. intros [H|[H|[H|[H|H]]]]; discriminate H.
Qed.

(** ** C7: the bounded log buffer *)

Lemma slice_last_length {A} k (l : list A) :
  length (slice_last k l) = Nat.min (length l) k.
Proof. unfold slice_last. rewrite length_drop. lia. Qed.

Lemma slice_last_short {A} k (l : list A) : length l ≤ k → slice_last k l = l.
Proof.
  unfold slice_last. intros H. replace (length l - k) with 0 by lia. done.
Qed.

Lemma slice_last_nested {A} j k (l : list A) :
  j ≤ k → slice_last j (slice_last k l) = slice_last j l.
Proof.
  intros H. unfold slice_last. rewrite length_drop, drop_drop. f_equal. lia.
Qed.

Lemma slice_last_snoc {A} k (l : list A) x :
  slice_last (S k) (l ++ [x]) = slice_last k l ++ [x].
Proof.
  unfold slice_last. rewrite length_app. simpl.
  replace (length l + 1 - S k) with (length l - k) by lia.
  apply drop_app_le. lia.
Qed.

Lemma handleLog_length x prev : length (handleLog x prev) ≤ 20.
Proof.
  unfold handleLog. rewrite length_app, slice_last_length. simpl. lia.
Qed.

Lemma handleLog_window x l :
  handleLog x (slice_last 20 l) = slice_last 20 (l ++ [x]).
Proof.
  unfold handleLog. rewrite slice_last_nested by lia.
  by rewrite slice_last_snoc.
Qed.

Lemma handleLog_full x prev :
  length prev = 20 → handleLog x prev = drop 1 prev ++ [x].
Proof. unfold handleLog, slice_last. by intros ->. Qed.

Lemma disconnect_app t w : app (disconnect t w) = app w.
Proof.
  unfold disconnect. destruct (callObjectRef (hook w)); [destruct t|]; done.
Qed.

(** Only app messages and the creation of the session reach [App]'s state
    through a handler. *)
Lemma handle_app ev w :
  (∀ now data, ev ≠ AppMessage now data) →
  (∀ s, ev ≠ SessionCreated s) →
  app (handle ev w) = app w.
Proof.
  intros Hmsg Hsess. destruct ev; simpl.
  - by destruct (Hsess session_id).
  - unfold connect. by destruct (_ || _).
  - destruct (pendingFetch (env w)); [done|].
    unfold connect_resume, connect_catch. destruct ok; [done|].
    by rewrite disconnect_app.
  - destruct (pendingJoin (env w)); [done|].
    unfold connect_catch. destruct ok; [done|]. by rewrite disconnect_app.
  - by destruct (has_transport w).
  - by destruct (has_transport w).
  - destruct (has_transport w); [|done]. unfold on_error.
    by rewrite disconnect_app.
  - by destruct (Hmsg now data).
  - apply disconnect_app.
  - unfold toggleMute. by destruct (callObjectRef (hook w)).
Qed.

Lemma handleStatusChange_stores s w :
  messages (app (handleStatusChange s w)) = messages (app w)
  ∧ logs (app (handleStatusChange s w)) = logs (app w)
  ∧ isConnectedDep (app (handleStatusChange s w)) = isConnectedDep (app w).
Proof. unfold handleStatusChange. by destruct (_ && _). Qed.

Lemma handleAppMessage_logs now data w :
  logs (app (handleAppMessage now data w)) = logs (app w)
  ∨ ∃ x, logs (app (handleAppMessage now data w)) = handleLog x (logs (app w)).
Proof.
  destruct (handleAppMessage_cases now data w)
    as [->|[(d&->&H)|[(d&->&H)|(d&->&H)]]]; [by left|..].
  - left. rewrite handleAppMessage_status by done.
    by rewrite (proj1 (proj2 (handleStatusChange_stores _ _))).
  - left. by rewrite handleAppMessage_transcript.
  - right. rewrite handleAppMessage_log by done. eauto.
Qed.

Lemma handle_logs ev w :
  logs (app (handle ev w)) = logs (app w)
  ∨ ∃ x, logs (app (handle ev w)) = handleLog x (logs (app w)).
Proof.
  destruct ev; try (left; rewrite handle_app; [done|by intros|by intros]).
  - by left.
  - simpl. destruct (has_transport w); [|by left]. apply handleAppMessage_logs.
Qed.

Lemma commit_logs w :
  logs (app (commit w)) = logs (app w) ∨ logs (app (commit w)) = [].
Proof.
  unfold commit. destruct (decide _); [by left|].
  destruct (isConnected w); [by left|by right].
Qed.

Lemma reachable_logs_bounded evs : length (logs (app (run initial evs))) ≤ 20.
Proof.
  induction evs as [|ev evs IH] using rev_ind; [vm_compute; lia|].
  rewrite run_snoc. unfold step.
  destruct (commit_logs (handle ev (run initial evs))) as [->| ->];
    [|simpl; lia].
  destruct (handle_logs ev (run initial evs)) as [->|[x ->]];
    [done|apply handleLog_length].
Qed.

Lemma deliver_snoc w ms m :
  deliver w (ms ++ [m]) = handleAppMessage m.1 (DataObject m.2) (deliver w ms).
Proof. unfold deliver. by rewrite foldl_app. Qed.

Lemma deliver_logs w ms :
  length (logs (app w)) ≤ 20 →
  Forall (λ m, is_log m.2 = true) ms →
  logs (app (deliver w ms))
  = slice_last 20 (logs (app w) ++ (log_entry <$> ms)).
Proof.
  intros Hlen. induction ms as [|m ms IH] using rev_ind; intros Hms.
  - simpl. rewrite app_nil_r. by rewrite slice_last_short.
  - apply Forall_app in Hms as [Hms Hm]. apply Forall_cons in Hm as [Hm _].
    rewrite deliver_snoc, handleAppMessage_log by done. simpl.
    rewrite IH by done. rewrite fmap_app, app_assoc. apply handleLog_window.
Qed.

(** C7: the log buffer of every reachable state holds at most 20 entries;
    after a batch of [log] messages it holds the most recent 20 of the
    entries it held followed by the new ones, in arrival order; and adding
    an entry to a buffer of 20 drops the oldest and appends the new one. *)
Theorem C7_log_buffer_keeps_most_recent_20 :
  ∀ (evs : list Event) (ms : list (Z * gmap string JsValue)),
    length (logs (app (run initial evs))) ≤ 20
    ∧ (Forall (λ m, is_log m.2 = true) ms →
       logs (app (deliver (run initial evs) ms))
       = slice_last 20 (logs (app (run initial evs)) ++ (log_entry <$> ms))
       ∧ length (logs (app (deliver (run initial evs) ms))) ≤ 20)
    ∧ (∀ x prev, length prev = 20 →
       handleLog x prev = drop 1 prev ++ [x]
       ∧ length (handleLog x prev) = 20).
Proof.
  intros evs ms. pose proof (reachable_logs_bounded evs) as Hlen.
  split_and!; [done| |].
  - intros Hms.
    assert (logs (app (deliver (run initial evs) ms))
            = slice_last 20 (logs (app (run initial evs)) ++ (log_entry <$> ms)))
      as Heq.
    { by apply deliver_logs. }
    split; [done|]. rewrite Heq, slice_last_length. lia.
  - intros x prev Hp. split; [by apply handleLog_full|].
    rewrite handleLog_full by done. rewrite length_app, length_drop. simpl. lia.
Qed.

Lemma C7_log_buffer_witness :
  Forall (λ m : Z * gmap string JsValue, is_log m.2 = true) (log_batch 23)
  ∧ LogMessage.text <$> logs (app (deliver (run initial []) (log_batch 23)))
    = (λ k : nat, JNum (Z.of_nat k)) <$> seq 3 20.
Proof.
  assert (H : Forall (λ m : Z * gmap string JsValue, is_log m.2 = true)
                (log_batch 23)).
  { apply Forall_fmap, Forall_forall. intros n _. reflexivity. }
  split; [exact H|].
  destruct (C7_log_buffer_keeps_most_recent_20 [] (log_batch 23)) as (_ & H2 & _).
  destruct (H2 H) as [-> _]. vm_compute. reflexivity.
Defined.

(** ** C8: [toggleMute] *)

Lemma toggleMute_active w call :
  callObjectRef (hook w) = Some call →
  callObjectRef (hook (toggleMute w)) = Some (mkCall (negb (localAudio call)))
  ∧ isMuted (hook (toggleMute w)) = localAudio call
  ∧ transportLog (env (toggleMute w))
    = transportLog (env w) ++ [OpSetLocalAudio (negb (localAudio call))].
Proof.
  unfold toggleMute. intros ->. destruct call as [[|]]; simpl; done.
Qed.

(** C8, as the code has it: [toggleMute] takes the mute state from the call
    object, not from the reported flag.  With a call object in the ref, two
    calls in succession issue exactly two local-audio changes, return the
    call object's local-audio state to its original value and leave the
    reported flag equal to the mute state of the call object; so the
    reported flag returns to its original value whenever it agreed with the
    call object before the calls.  With no call object, [toggleMute] changes
    nothing. *)
Theorem C8_toggleMute_twice_restores_transport_state :
  ∀ (w : World),
    (∀ call, callObjectRef (hook w) = Some call →
       callObjectRef (hook (toggleMute (toggleMute w))) = Some call
       ∧ transportLog (env (toggleMute (toggleMute w)))
         = transportLog (env w)
           ++ [OpSetLocalAudio (negb (localAudio call));
               OpSetLocalAudio (localAudio call)]
       ∧ isMuted (hook (toggleMute (toggleMute w))) = negb (localAudio call)
       ∧ (isMuted (hook w) = negb (localAudio call) →
          isMuted (hook (toggleMute (toggleMute w))) = isMuted (hook w)))
    ∧ (callObjectRef (hook w) = None → toggleMute w = w).
Proof.
  intros w. split.
  - intros call Href.
    destruct (toggleMute_active w call Href) as (Href1 & Hm1 & Hlog1).
    destruct (toggleMute_active (toggleMute w) _ Href1) as (Href2 & Hm2 & Hlog2).
    simpl in *. rewrite negb_involutive in *.
    split_and!.
    + rewrite Href2. by destruct call.
    + rewrite Hlog2, Hlog1, <- app_assoc. done.
    + done.
    + intros ->. done.
  - unfold toggleMute. by intros ->.
Qed.

Lemma C8_toggleMute_witness :
  callObjectRef (hook w_connected) = Some (mkCall true)
  ∧ isMuted (hook w_connected) = negb (localAudio (mkCall true))
  ∧ isMuted (hook (toggleMute (toggleMute w_connected)))
    = isMuted (hook w_connected)
  ∧ callObjectRef (hook initial) = None
  ∧ toggleMute initial = initial.
Proof.
  destruct (C8_toggleMute_twice_restores_transport_state w_connected) as [H1 _].
  destruct (C8_toggleMute_twice_restores_transport_state initial) as [_ H2].
  destruct (H1 (mkCall true) eq_refl) as (_ & _ & _ & H).
  split; [reflexivity|]. split; [reflexivity|]. split; [exact (H eq_refl)|].
  split; [reflexivity|]. exact (H2 eq_refl).
Defined.

(** C8 as stated fails: after muting in one connection, disconnecting and
    connecting again, the reported flag is still [true] while the new call
    object has its microphone on; two calls of [toggleMute] then leave the
    reported flag at [false], not at its original value. *)
Lemma C8_toggleMute_twice_changes_reported_flag :
  is_Some (callObjectRef (hook w_reconnected_after_mute))
  ∧ isMuted (hook w_reconnected_after_mute) = true
  ∧ isMuted
      (hook (run w_reconnected_after_mute [ToggleMuteCalled; ToggleMuteCalled]))
    = false.
Proof. vm_compute. eauto. Qed.

(** ** The transcript upsert *)

(** [handleTranscript], read along the list. *)
Lemma handleTranscript_nil m : handleTranscript m [] = [m].
Proof. reflexivity. Qed.

Lemma handleTranscript_cons m x l :
  handleTranscript m (x :: l)
  = if decide (TranscriptMessage.id x = TranscriptMessage.id m) then m :: l
    else x :: handleTranscript m l.
Proof.
  unfold handleTranscript. simpl. destruct (decide _); [done|].
  destruct (list_find _ l) as [[i y]|]; done.
Qed.

Lemma handleTranscript_fresh m prev :
  Forall (λ x, TranscriptMessage.id x ≠ TranscriptMessage.id m) prev → handleTranscript m prev = prev ++ [m].
Proof.
  intros H. unfold handleTranscript.
  by rewrite (proj2 (list_find_None _ prev) H).
Qed.

Lemma handleTranscript_ids_other m prev i :
  i ≠ TranscriptMessage.id m →
  entries_with_id i (handleTranscript m prev) = entries_with_id i prev.
Proof.
  intros Hi. unfold entries_with_id.
  induction prev as [|x l IH].
  - rewrite handleTranscript_nil, filter_cons, decide_False by done. done.
  - rewrite handleTranscript_cons. destruct (decide (TranscriptMessage.id x = TranscriptMessage.id m)) as [E|E].
    + rewrite !filter_cons, !decide_False by congruence. done.
    + rewrite !filter_cons, IH. done.
Qed.

Lemma handleTranscript_elem m prev x :
  x ∈ handleTranscript m prev → x = m ∨ x ∈ prev.
Proof.
  induction prev as [|y l IH]; simpl.
  - intros ->%list_elem_of_singleton. by left.
  - rewrite handleTranscript_cons. destruct (decide _).
    + intros [->|?]%elem_of_cons; [by left|right; by apply elem_of_cons; right].
    + intros [->|?]%elem_of_cons; [right; by apply elem_of_cons; left|].
      destruct IH as [->|?]; [done|by left|right; by apply elem_of_cons; right].
Qed.

Lemma handleTranscript_mem m prev : m ∈ handleTranscript m prev.
Proof.
  induction prev as [|y l IH]; simpl.
  - by apply list_elem_of_singleton.
  - rewrite handleTranscript_cons. destruct (decide _); apply elem_of_cons; auto.
Qed.

(** Ids stay pairwise distinct, and the entry for the id of the update is
    the update itself. *)
Lemma handleTranscript_NoDup m prev :
  NoDup (TranscriptMessage.id <$> prev) → NoDup (TranscriptMessage.id <$> handleTranscript m prev).
Proof.
  induction prev as [|x l IH]; simpl.
  - intros _. apply NoDup_singleton.
  - rewrite handleTranscript_cons. intros [Hx Hl]%NoDup_cons.
    destruct (decide (TranscriptMessage.id x = TranscriptMessage.id m)) as [E|E]; simpl.
    + apply NoDup_cons. by rewrite <- E.
    + apply NoDup_cons. split; [|by apply IH].
      intros (y & Hy & Hin)%list_elem_of_fmap.
      destruct (handleTranscript_elem _ _ _ Hin) as [->|Hin']; [done|].
      apply Hx. apply list_elem_of_fmap. eauto.
Qed.

Lemma entries_with_id_absent i l :
  i ∉ TranscriptMessage.id <$> l → entries_with_id i l = [].
Proof.
  intros H. unfold entries_with_id. induction l as [|x l IH]; [done|].
  simpl in H. apply not_elem_of_cons in H as [Hx Hl].
  rewrite filter_cons, decide_False by congruence. by apply IH.
Qed.

Lemma handleTranscript_entry m prev :
  NoDup (TranscriptMessage.id <$> prev) →
  entries_with_id (TranscriptMessage.id m) (handleTranscript m prev) = [m].
Proof.
  unfold entries_with_id. induction prev as [|x l IH].
  - intros _. rewrite handleTranscript_nil, filter_cons, decide_True by done.
    done.
  - rewrite handleTranscript_cons, fmap_cons. intros [Hx Hl]%NoDup_cons.
    destruct (decide (TranscriptMessage.id x = TranscriptMessage.id m)) as [E|E].
    + rewrite filter_cons, decide_True by done. f_equal.
      apply entries_with_id_absent. by rewrite <- E.
    + rewrite filter_cons, decide_False by done. by apply IH.
Qed.

Lemma handleAppMessage_messages now data w :
  messages (app (handleAppMessage now data w)) = messages (app w)
  ∨ ∃ d, data = DataObject d ∧ is_transcript d = true
         ∧ messages (app (handleAppMessage now data w))
           = handleTranscript (buildTranscript now d (mintedNumber d (globals w)))
               (messages (app w)).
Proof.
  destruct (handleAppMessage_cases now data w)
    as [->|[(d&->&H)|[(d&->&H)|(d&->&H)]]]; [by left|..].
  - left. rewrite handleAppMessage_status by done.
    by rewrite (proj1 (handleStatusChange_stores _ _)).
  - right. exists d. by rewrite handleAppMessage_transcript.
  - left. by rewrite handleAppMessage_log.
Qed.

Lemma handle_messages ev w :
  messages (app (handle ev w)) = messages (app w)
  ∨ ∃ now d, ev = AppMessage now (DataObject d) ∧ is_transcript d = true
             ∧ messages (app (handle ev w))
               = handleTranscript
                   (buildTranscript now d (mintedNumber d (globals w)))
                   (messages (app w)).
Proof.
  destruct ev; try (left; rewrite handle_app; [done|by intros|by intros]).
  - by left.
  - simpl. destruct (has_transport w); [|by left].
    destruct (handleAppMessage_messages now data w) as [?|(d & -> & ? & ?)];
      [by left|right; eauto].
Qed.

Lemma commit_messages w :
  messages (app (commit w)) = messages (app w) ∨ messages (app (commit w)) = [].
Proof.
  unfold commit. destruct (decide _); [by left|].
  destruct (isConnected w); [by left|by right].
Qed.

(** What [step] does to the transcript store. *)
Lemma step_messages w ev :
  messages (app (step w ev)) = messages (app w)
  ∨ messages (app (step w ev)) = []
  ∨ ∃ now d, ev = AppMessage now (DataObject d) ∧ is_transcript d = true
             ∧ messages (app (step w ev))
               = handleTranscript
                   (buildTranscript now d (mintedNumber d (globals w)))
                   (messages (app w)).
Proof.
  unfold step. destruct (commit_messages (handle ev w)) as [->| ->]; [|auto].
  destruct (handle_messages ev w) as [->|(now & d & ? & ? & ?)]; [auto|].
  right; right. eauto.
Qed.

Lemma reachable_ids_NoDup w : reachable w → NoDup (TranscriptMessage.id <$> messages (app w)).
Proof.
  intros [evs ->]. induction evs as [|ev evs IH] using rev_ind.
  - vm_compute. apply NoDup_nil_2.
  - rewrite run_snoc.
    destruct (step_messages (run initial evs) ev)
      as [->|[->|(now & d & _ & _ & ->)]]; [done|apply NoDup_nil_2|].
    by apply handleTranscript_NoDup.
Qed.

(** ** C5: one entry per utterance *)

Lemma handleAppMessage_ids_NoDup now data w :
  NoDup (TranscriptMessage.id <$> messages (app w)) →
  NoDup (TranscriptMessage.id <$> messages (app (handleAppMessage now data w))).
Proof.
  intros H.
  destruct (handleAppMessage_messages now data w) as [->|(d & _ & _ & ->)];
    [done|by apply handleTranscript_NoDup].
Qed.

Lemma deliver_ids_NoDup w ms :
  NoDup (TranscriptMessage.id <$> messages (app w)) →
  NoDup (TranscriptMessage.id <$> messages (app (deliver w ms))).
Proof.
  intros H. induction ms as [|m ms IH] using rev_ind; [done|].
  rewrite deliver_snoc. by apply handleAppMessage_ids_NoDup.
Qed.

Lemma mintedNumber_explicit d g :
  nullish (prop d "messageId") = false → mintedNumber d g = prop d "messageId".
Proof. unfold mintedNumber, resolveMessageId. by intros ->. Qed.

Lemma resolveMessageId_explicit role mid g :
  nullish mid = false → resolveMessageId role mid g = (mid, g).
Proof. unfold resolveMessageId. by intros ->. Qed.

(** C5: after a non-empty run of transcript updates that all carry the same
    role and the same explicit [messageId], the stored list has exactly one
    entry with the id [role-messageId], and it carries the role, the [text]
    and the [final] (true when omitted) of the last update; an update whose
    id matches no stored entry is appended at the end. *)
Theorem C5_one_entry_per_utterance_last_update_wins :
  ∀ (w : World) (ms : list (Z * gmap string JsValue)) (now : Z)
    (d : gmap string JsValue) (role messageId : JsValue),
    (reachable w →
     nullish messageId = false →
     Forall (update_of role messageId) ms →
     last ms = Some (now, d) →
     ∃ m, entries_with_id (compositeId role messageId)
            (messages (app (deliver w ms))) = [m]
          ∧ TranscriptMessage.role m = role
          ∧ TranscriptMessage.text m = prop d "text"
          ∧ TranscriptMessage.final m = coalesce (prop d "final") (JBool true))
    ∧ (is_transcript d = true →
       Forall (λ x, TranscriptMessage.id x ≠ mintedId d (globals w))
         (messages (app w)) →
       messages (app (handleAppMessage now (DataObject d) w))
       = messages (app w) ++ [buildTranscript now d (mintedNumber d (globals w))]).
Proof.
  intros w ms now d role mid. split.
  - intros Hw Hmid Hms Hlast.
    apply last_Some in Hlast as [ms' ->].
    apply Forall_app in Hms as [_ Hd]. apply Forall_cons in Hd as [Hd _].
    destruct Hd as (Ht & Hr & Hm). simpl in Ht, Hr, Hm.
    rewrite deliver_snoc. cbn [fst snd].
    rewrite handleAppMessage_transcript by done. cbn [messages app setMessages with_app].
    rewrite mintedNumber_explicit by (by rewrite Hm). rewrite Hm.
    exists (buildTranscript now d mid). split_and!; try done.
    replace (compositeId role mid)
      with (TranscriptMessage.id (buildTranscript now d mid))
      by (simpl; by rewrite Hr).
    apply handleTranscript_entry, deliver_ids_NoDup.
    by apply reachable_ids_NoDup.
  - intros Ht Hfresh. rewrite handleAppMessage_transcript by done. simpl.
    by apply handleTranscript_fresh.
Qed.

Lemma C5_one_entry_witness :
  reachable w_connected
  ∧ nullish (JNum 7) = false
  ∧ Forall (update_of (JStr "assistant") (JNum 7)) streamed_answer
  ∧ length (entries_with_id "assistant-7"
              (messages (app (deliver w_connected streamed_answer)))) = 1
  ∧ TranscriptMessage.text
      <$> entries_with_id "assistant-7"
            (messages (app (deliver w_connected streamed_answer)))
    = [JStr "The book ends."]
  ∧ TranscriptMessage.final
      <$> entries_with_id "assistant-7"
            (messages (app (deliver w_connected streamed_answer)))
    = [JBool true].
Proof.
  assert (Hr : reachable w_connected).
  { exists [SessionCreated "s1"; ConnectCalled; FetchSettled true TeardownOk;
            JoinedMeeting; JoinSettled true TeardownOk]. by vm_compute. }
  assert (Hf : Forall (update_of (JStr "assistant") (JNum 7)) streamed_answer).
  { repeat (apply Forall_cons; split; [by vm_compute|]). apply Forall_nil_2. }
  split; [exact Hr|]. split; [reflexivity|]. split; [exact Hf|].
  destruct (proj1 (C5_one_entry_per_utterance_last_update_wins w_connected
                     streamed_answer 3
                     (transcript_fields (JStr "assistant") (JNum 7)
                        "The book ends." (JBool true))
                     (JStr "assistant") (JNum 7))
              Hr eq_refl Hf eq_refl) as (m & Hm & _ & Htext & Hfinal).
  change (compositeId (JStr "assistant") (JNum 7)) with "assistant-7" in Hm.
  rewrite Hm. cbn [length fmap list_fmap]. rewrite Htext, Hfinal.
  split; [reflexivity|]. split; vm_compute; reflexivity.
Defined.

(** ** C3: role and [final] of a stored entry *)

(** Between ['user'] and ['assistant'] the composite id determines the role:
    the two prefixes differ in their first character. *)
Lemma role_of_compositeId r1 r2 x y :
  is_Role r1 → is_Role r2 → compositeId r1 x = compositeId r2 y → r1 = r2.
Proof.
  unfold compositeId. intros [-> | ->] [-> | ->] H; simpl in H;
    try reflexivity; discriminate H.
Qed.

Lemma reachable_entries_built evs :
  roles_typed evs →
  Forall built_by_router (messages (app (run initial evs))).
Proof.
  induction evs as [|ev evs IH] using rev_ind; intros Hty.
  - vm_compute. apply Forall_nil_2.
  - apply Forall_app in Hty as [Hevs Hev]. apply Forall_cons in Hev as [Hev _].
    rewrite run_snoc.
    destruct (step_messages (run initial evs) ev)
      as [->|[->|(now & d & -> & Ht & ->)]];
      [by apply IH|apply Forall_nil_2|].
    apply Forall_forall. intros m Hm.
    destruct (handleTranscript_elem _ _ _ Hm) as [->|Hin].
    + split; [by apply Hev|]. simpl. eauto.
    + specialize (IH Hevs). rewrite Forall_forall in IH. by apply IH.
Qed.

Lemma roles_typed_app evs1 evs2 :
  roles_typed (evs1 ++ evs2) → roles_typed evs1.
Proof. unfold roles_typed. by intros [H _]%Forall_app. Qed.

(** C3, as the code has it: an update replaces the stored entry wholesale.
    Across any run whose transcript messages carry the roles ['user'] or
    ['assistant'], two stored entries with the same id, taken at an earlier
    and a later moment, have the same role.  The [final] flag is not
    monotonic but last-write-wins: right after an update, every stored entry
    with its id carries the [final] of that update ([true] when omitted),
    whatever the entry carried before. *)
Theorem C3_role_stable_final_last_write_wins :
  ∀ (evs1 evs2 : list Event) (now : Z) (d : gmap string JsValue),
    (roles_typed (evs1 ++ evs2) →
     ∀ m1 m2,
       m1 ∈ messages (app (run initial evs1)) →
       m2 ∈ messages (app (run initial (evs1 ++ evs2))) →
       TranscriptMessage.id m1 = TranscriptMessage.id m2 →
       TranscriptMessage.role m1 = TranscriptMessage.role m2)
    ∧ (is_transcript d = true →
       ∀ m,
         m ∈ messages (app (handleAppMessage now (DataObject d) (run initial evs1))) →
         TranscriptMessage.id m = mintedId d (globals (run initial evs1)) →
         TranscriptMessage.final m = coalesce (prop d "final") (JBool true)).
Proof.
  intros evs1 evs2 now d. split.
  - intros Hty m1 m2 H1 H2 Hid.
    pose proof (reachable_entries_built _ (roles_typed_app _ _ Hty)) as B1.
    pose proof (reachable_entries_built _ Hty) as B2.
    rewrite Forall_forall in B1, B2.
    destruct (B1 _ H1) as (R1 & x & E1). destruct (B2 _ H2) as (R2 & y & E2).
    apply (role_of_compositeId _ _ x y R1 R2). congruence.
  - intros Ht m Hm Hid.
    rewrite handleAppMessage_transcript in Hm by done.
    cbn [messages app setMessages with_app] in Hm.
    assert (Hone : entries_with_id (mintedId d (globals (run initial evs1)))
              (handleTranscript
                 (buildTranscript now d (mintedNumber d (globals (run initial evs1))))
                 (messages (app (run initial evs1))))
            = [buildTranscript now d (mintedNumber d (globals (run initial evs1)))]).
    { apply (handleTranscript_entry
               (buildTranscript now d (mintedNumber d (globals (run initial evs1))))).
      apply reachable_ids_NoDup. by exists evs1. }
    assert (m ∈ [buildTranscript now d (mintedNumber d (globals (run initial evs1)))])
      as ->%list_elem_of_singleton.
    { rewrite <- Hone. unfold entries_with_id. by apply list_elem_of_filter. }
    reflexivity.
Qed.

Lemma C3_role_stable_witness :
  roles_typed (partial_then_final_1 ++ partial_then_final_2)
  ∧ TranscriptMessage.mk "user-1" (JStr "user") (JStr "hello") (JNum 1) (JBool false)
    ∈ messages (app (run initial partial_then_final_1))
  ∧ TranscriptMessage.mk "user-1" (JStr "user") (JStr "hello there") (JNum 2) (JBool true)
    ∈ messages (app (run initial (partial_then_final_1 ++ partial_then_final_2)))
  ∧ TranscriptMessage.role
      (TranscriptMessage.mk "user-1" (JStr "user") (JStr "hello") (JNum 1) (JBool false))
    = TranscriptMessage.role
        (TranscriptMessage.mk "user-1" (JStr "user") (JStr "hello there") (JNum 2) (JBool true))
  ∧ is_transcript (transcript_fields (JStr "user") (JNum 1) "hello there" (JBool true)) = true
  ∧ TranscriptMessage.final
      (TranscriptMessage.mk "user-1" (JStr "user") (JStr "hello there") (JNum 2) (JBool true))
    = JBool true.
Proof.
  assert (Hty : roles_typed (partial_then_final_1 ++ partial_then_final_2)).
  { unfold roles_typed. simpl.
    repeat (apply Forall_cons; split; [first [exact I|intros _; by left]|]).
    apply Forall_nil_2. }
  assert (H1 : TranscriptMessage.mk "user-1" (JStr "user") (JStr "hello") (JNum 1) (JBool false)
               ∈ messages (app (run initial partial_then_final_1))).
  { vm_compute. constructor. }
  assert (H2 : TranscriptMessage.mk "user-1" (JStr "user") (JStr "hello there") (JNum 2) (JBool true)
               ∈ messages (app (run initial (partial_then_final_1 ++ partial_then_final_2)))).
  { vm_compute. constructor. }
  assert (H3 : TranscriptMessage.mk "user-1" (JStr "user") (JStr "hello there") (JNum 2) (JBool true)
               ∈ messages (app (handleAppMessage 2
                                  (DataObject (transcript_fields (JStr "user") (JNum 1)
                                                 "hello there" (JBool true)))
                                  (run initial partial_then_final_1)))).
  { vm_compute. constructor. }
  destruct (C3_role_stable_final_last_write_wins partial_then_final_1
              partial_then_final_2 2
              (transcript_fields (JStr "user") (JNum 1) "hello there" (JBool true)))
    as [Hrole Hfinal].
  split; [exact Hty|]. split; [exact H1|]. split; [exact H2|].
  split; [exact (Hrole Hty _ _ H1 H2 eq_refl)|]. split; [reflexivity|].
  exact (Hfinal eq_refl _ H3 eq_refl).
Defined.

(** C3 as stated fails on [final]: the entry ["user-1"] is stored with
    [final = true]; a later update with the same role and [messageId] and
    [final = false] leaves the stored entry with [final = false]. *)
Lemma C3_final_reverts_to_false :
  messages (app (run w_connected
     [AppMessage 1 (transcript_msg (JStr "user") (JNum 1) "hello" (JBool true))]))
  = [TranscriptMessage.mk "user-1" (JStr "user") (JStr "hello") (JNum 1) (JBool true)]
  ∧ messages (app (run w_connected
     [AppMessage 1 (transcript_msg (JStr "user") (JNum 1) "hello" (JBool true));
      AppMessage 2 (transcript_msg (JStr "user") (JNum 1) "hel" (JBool false))]))
  = [TranscriptMessage.mk "user-1" (JStr "user") (JStr "hel") (JNum 2) (JBool false)].
Proof. vm_compute. done. Qed.

(** ** C4: the fallback counters *)

Lemma pre_increment_ge n : (n ≤ pre_increment n)%Z.
Proof. unfold pre_increment. destruct (n <? MAX_EXACT)%Z; lia. Qed.

Lemma pre_increment_exact n : (n < MAX_EXACT)%Z → pre_increment n = (n + 1)%Z.
Proof.
  unfold pre_increment. intros H. by rewrite (proj2 (Z.ltb_lt _ _) H).
Qed.

Lemma pre_increment_stuck : pre_increment MAX_EXACT = MAX_EXACT.
Proof. reflexivity. Qed.

(** An id-less message advances the counter its role selects and no other. *)
Lemma resolveMessageId_idless role mid g :
  nullish mid = true →
  (resolveMessageId role mid g).1 = JNum (pre_increment (counter_of role g))
  ∧ counter_of role (resolveMessageId role mid g).2
    = pre_increment (counter_of role g)
  ∧ ∀ role', strict_eq role' (JStr "user") ≠ strict_eq role (JStr "user") →
      counter_of role' (resolveMessageId role mid g).2 = counter_of role' g.
Proof.
  unfold resolveMessageId, counter_of. intros ->. simpl.
  destruct (strict_eq role (JStr "user")) eqn:E; simpl; rewrite ?E;
    (split_and!; [done|done|]); intros role' H;
    destruct (strict_eq role' (JStr "user")); done.
Qed.

Lemma resolveMessageId_mono role mid g role' :
  (counter_of role' g ≤ counter_of role' (resolveMessageId role mid g).2)%Z.
Proof.
  unfold resolveMessageId, counter_of.
  destruct (nullish mid); simpl; [|lia].
  destruct (strict_eq role (JStr "user")), (strict_eq role' (JStr "user"));
    simpl; try lia; apply pre_increment_ge.
Qed.

Lemma handleAppMessage_globals now data w :
  globals (handleAppMessage now data w) = globals w
  ∨ ∃ d, data = DataObject d ∧ is_transcript d = true
         ∧ globals (handleAppMessage now data w)
           = (resolveMessageId (prop d "role") (prop d "messageId") (globals w)).2.
Proof.
  destruct (handleAppMessage_cases now data w)
    as [->|[(d&->&H)|[(d&->&H)|(d&->&H)]]]; [by left|..].
  - left. rewrite handleAppMessage_status by done.
    unfold handleStatusChange. by destruct (_ && _).
  - right. exists d. by rewrite handleAppMessage_transcript.
  - left. by rewrite handleAppMessage_log.
Qed.

Lemma disconnect_globals t w : globals (disconnect t w) = globals w.
Proof.
  unfold disconnect. destruct (callObjectRef (hook w)); [destruct t|]; done.
Qed.

(** No handler other than the router writes the counters. *)
Lemma handle_globals ev w :
  (∀ now data, ev ≠ AppMessage now data) → globals (handle ev w) = globals w.
Proof.
  intros Hmsg. destruct ev; simpl.
  - done.
  - unfold connect. by destruct (_ || _).
  - destruct (pendingFetch (env w)); [done|].
    unfold connect_resume, connect_catch. destruct ok; [done|].
    by rewrite disconnect_globals.
  - destruct (pendingJoin (env w)); [done|].
    unfold connect_catch. destruct ok; [done|]. by rewrite disconnect_globals.
  - by destruct (has_transport w).
  - by destruct (has_transport w).
  - destruct (has_transport w); [|done]. unfold on_error.
    by rewrite disconnect_globals.
  - by destruct (Hmsg now data).
  - apply disconnect_globals.
  - unfold toggleMute. by destruct (callObjectRef (hook w)).
Qed.

Lemma step_counter_mono w ev role :
  (counter_of role (globals w) ≤ counter_of role (globals (step w ev)))%Z.
Proof.
  unfold step. rewrite globals_commit.
  destruct ev; try (rewrite handle_globals by (by intros); lia).
  simpl. destruct (has_transport w); [|lia].
  destruct (handleAppMessage_globals now data w) as [->|(d & _ & _ & ->)];
    [lia|apply resolveMessageId_mono].
Qed.

Lemma run_counter_mono evs w role :
  (counter_of role (globals w) ≤ counter_of role (globals (run w evs)))%Z.
Proof.
  induction evs as [|ev evs IH] using rev_ind; [simpl; lia|].
  rewrite run_snoc. pose proof (step_counter_mono (run w evs) ev role). lia.
Qed.

Lemma compositeId_inj_number role n1 n2 :
  compositeId role (JNum n1) = compositeId role (JNum n2) → n1 = n2.
Proof.
  unfold compositeId. intros H. apply (inj (String.app _)) in H.
  apply (inj (String.app _)) in H. simpl in H. by apply (inj pretty) in H.
Qed.

(** C4, as the code has it: the two fallback counters are module-level
    variables, one for ['user'] and one for every other role.  Two id-less
    fragments of the same role, with any events in between, are given
    strictly increasing sequence numbers and distinct identities as long as
    the counter is below [2^53] when the second arrives; an id-less fragment
    of one role leaves the counter of the other role untouched; and no
    event other than an app message writes the counters, so they are not
    reset by a disconnect or a new connection: their values carry over. *)
Theorem C4_counters_per_role_not_per_session :
  ∀ (w : World) (evs : list Event) (now1 now2 : Z)
    (d1 d2 : gmap string JsValue),
    (is_transcript d1 = true → is_transcript d2 = true →
     nullish (prop d1 "messageId") = true →
     nullish (prop d2 "messageId") = true →
     prop d1 "role" = prop d2 "role" →
     (counter_of (prop d2 "role")
        (globals (run (handleAppMessage now1 (DataObject d1) w) evs))
      < MAX_EXACT)%Z →
     ∃ n1 n2 : Z,
       mintedNumber d1 (globals w) = JNum n1
       ∧ mintedNumber d2
           (globals (run (handleAppMessage now1 (DataObject d1) w) evs))
         = JNum n2
       ∧ (n1 < n2)%Z
       ∧ mintedId d1 (globals w)
         ≠ mintedId d2
             (globals (run (handleAppMessage now1 (DataObject d1) w) evs)))
    ∧ (is_transcript d1 = true →
       nullish (prop d1 "messageId") = true →
       ∀ role', is_Role (prop d1 "role") → is_Role role' →
         role' ≠ prop d1 "role" →
         counter_of role' (globals (handleAppMessage now1 (DataObject d1) w))
         = counter_of role' (globals w))
    ∧ (∀ ev, (∀ now data, ev ≠ AppMessage now data) →
         globals (step w ev) = globals w).
Proof.
  intros w evs now1 now2 d1 d2. split_and!.
  - intros Ht1 Ht2 Hn1 Hn2 Hrole Hlt.
    set (w1 := handleAppMessage now1 (DataObject d1) w) in *.
    set (w2 := run w1 evs) in *.
    destruct (resolveMessageId_idless (prop d1 "role") (prop d1 "messageId")
                (globals w) Hn1) as (E1 & C1 & _).
    destruct (resolveMessageId_idless (prop d2 "role") (prop d2 "messageId")
                (globals w2) Hn2) as (E2 & _ & _).
    assert (Hw1 : counter_of (prop d2 "role") (globals w1)
                  = pre_increment (counter_of (prop d1 "role") (globals w))).
    { unfold w1. rewrite handleAppMessage_transcript by done.
      rewrite <- Hrole. exact C1. }
    pose proof (run_counter_mono evs w1 (prop d2 "role")) as Hmono.
    fold w2 in Hmono.
    exists (pre_increment (counter_of (prop d1 "role") (globals w))),
           (pre_increment (counter_of (prop d2 "role") (globals w2))).
    assert (Hless : (pre_increment (counter_of (prop d1 "role") (globals w))
                     < pre_increment (counter_of (prop d2 "role") (globals w2)))%Z).
    { rewrite (pre_increment_exact (counter_of (prop d2 "role") (globals w2)))
        by done.
      lia. }
    split_and!; [exact E1|exact E2|exact Hless|].
    unfold mintedId, mintedNumber. rewrite E1, E2. rewrite Hrole in Hless |- *.
    intros Heq%compositeId_inj_number. lia.
  - intros Ht Hn role' Hr Hr' Hne.
    rewrite handleAppMessage_transcript by done.
    apply (resolveMessageId_idless _ _ (globals w) Hn).
    destruct Hr as [E | E], Hr' as [-> | ->]; rewrite E in Hne |- *;
      try (by destruct Hne); by vm_compute.
  - intros ev Hev. unfold step. rewrite globals_commit.
    by apply handle_globals.
Qed.

Lemma C4_counters_witness :
  is_transcript (idless_fields (JStr "user") "a" (JBool true)) = true
  ∧ nullish (prop (idless_fields (JStr "user") "a" (JBool true)) "messageId") = true
  ∧ (counter_of (JStr "user")
       (globals (run (handleAppMessage 1
                        (idless_msg (JStr "user") "a" (JBool true)) w_connected)
                     [DisconnectCalled TeardownOk]))
     < MAX_EXACT)%Z
  ∧ mintedId (idless_fields (JStr "user") "a" (JBool true)) (globals w_connected)
    ≠ mintedId (idless_fields (JStr "user") "b" (JBool true))
        (globals (run (handleAppMessage 1
                         (idless_msg (JStr "user") "a" (JBool true)) w_connected)
                      [DisconnectCalled TeardownOk])).
Proof.
  split; [reflexivity|]. split; [reflexivity|]. split; [by vm_compute|].
  destruct (proj1 (C4_counters_per_role_not_per_session w_connected
                     [DisconnectCalled TeardownOk] 1 2
                     (idless_fields (JStr "user") "a" (JBool true))
                     (idless_fields (JStr "user") "b" (JBool true)))
              eq_refl eq_refl eq_refl eq_refl eq_refl eq_refl)
    as (n1 & n2 & _ & _ & _ & Hne).
  exact Hne.
Defined.

Lemma step_AppMessage_transport w now data :
  has_transport (step w (AppMessage now data)) = has_transport w.
Proof.
  unfold step. unfold has_transport at 1. rewrite hook_commit. simpl handle.
  destruct (has_transport w) eqn:E; [|exact E].
  rewrite (proj2 (proj2 (handleAppMessage_connection now data w))). exact E.
Qed.

(** The user counter after [n] id-less user fragments: it counts up and
    stays at [2^53] once there. *)
Lemma run_idless_user_globals n w now text final :
  has_transport w = true →
  (0 ≤ globalUserMessageId (globals w) ≤ MAX_EXACT)%Z →
  globals (run w (repeat (AppMessage now (idless_msg (JStr "user") text final)) n))
  = mkGlobals
      (Z.min (globalUserMessageId (globals w) + Z.of_nat n) MAX_EXACT)
      (globalAssistantMessageId (globals w))
  ∧ has_transport
      (run w (repeat (AppMessage now (idless_msg (JStr "user") text final)) n))
    = true.
Proof.
  intros Ht Hc. induction n as [|n [IHg IHt]].
  - simpl. split; [|done]. destruct (globals w) as [u a]. simpl in *.
    f_equal. lia.
  - simpl repeat. rewrite repeat_cons, run_snoc.
    split; [|by rewrite step_AppMessage_transport].
    unfold step, handle. rewrite globals_commit, IHt.
    unfold idless_msg in *. rewrite handleAppMessage_transcript by reflexivity.
    cbn [globals with_globals setMessages with_app]. rewrite IHg.
    replace (prop (idless_fields (JStr "user") text final) "role")
      with (JStr "user") by reflexivity.
    replace (prop (idless_fields (JStr "user") text final) "messageId")
      with JUndefined by reflexivity.
    unfold resolveMessageId. simpl. f_equal.
    unfold pre_increment.
    destruct (Z.ltb_spec
                (Z.min (globalUserMessageId (globals w) + Z.of_nat n) MAX_EXACT)
                MAX_EXACT); lia.
Qed.

Lemma w_saturated_globals : globals w_saturated = mkGlobals MAX_EXACT 0.
Proof.
  assert (Hn : Z.of_nat (Z.to_nat MAX_EXACT) = MAX_EXACT).
  { apply Z2Nat.id. unfold MAX_EXACT. lia. }
  assert (Ht : has_transport w_connected = true) by (by vm_compute).
  assert (Hg : globals w_connected = mkGlobals 0 0) by (by vm_compute).
  assert (Hc : (0 ≤ globalUserMessageId (globals w_connected) ≤ MAX_EXACT)%Z).
  { rewrite Hg. unfold MAX_EXACT. cbn [globalUserMessageId]. lia. }
  unfold w_saturated.
  rewrite (proj1 (run_idless_user_globals (Z.to_nat MAX_EXACT) w_connected 10
                    "x" (JBool true) Ht Hc)).
  rewrite Hn, Hg. reflexivity.
Qed.

(** C4 as stated fails twice.  The counters are not scoped to a session:
    after one id-less user fragment, a disconnect and a new connection the
    store is empty but the user counter still holds 1, and the first id-less
    user fragment of the new connection is given ["user-2"].  And identities
    stop increasing at [2^53]: a connection that has received [2^53] id-less
    user fragments gives the next two the same identity. *)
Lemma C4_counters_survive_reconnect_and_saturate :
  (connectionStatus (hook (run w_connected second_session)) = connected
   ∧ messages (app (run w_connected second_session)) = []
   ∧ globals (run w_connected second_session) = mkGlobals 1 0
   ∧ TranscriptMessage.id
       <$> messages (app (run w_connected
                            (second_session
                             ++ [AppMessage 20 (idless_msg (JStr "user") "second"
                                                  (JBool true))])))
     = ["user-2"])
  ∧ (mintedId (idless_fields (JStr "user") "a" (JBool true)) (globals w_saturated)
     = "user-9007199254740992"
     ∧ mintedId (idless_fields (JStr "user") "b" (JBool true))
         (globals (handleAppMessage 11
                     (idless_msg (JStr "user") "a" (JBool true)) w_saturated))
       = "user-9007199254740992").
Proof.
  split; [by vm_compute|].
  assert (Hnext : globals (handleAppMessage 11
                             (idless_msg (JStr "user") "a" (JBool true))
                             w_saturated)
                  = mkGlobals MAX_EXACT 0).
  { unfold idless_msg. rewrite handleAppMessage_transcript by reflexivity.
    cbn [globals with_globals setMessages with_app].
    rewrite w_saturated_globals. by vm_compute. }
  rewrite Hnext, w_saturated_globals. clear Hnext.
  vm_compute. split; reflexivity.
Qed.

(** ** C9: the stores outside [connected] *)

Lemma handle_isConnectedDep ev w :
  isConnectedDep (app (handle ev w)) = isConnectedDep (app w).
Proof.
  destruct ev; try (rewrite handle_app; [done|by intros|by intros]).
  - done.
  - simpl. destruct (has_transport w); [|done].
    destruct (handleAppMessage_cases now data w)
      as [->|[(d&->&H)|[(d&->&H)|(d&->&H)]]]; [done|..].
    + rewrite handleAppMessage_status by done.
      by rewrite (proj2 (proj2 (handleStatusChange_stores _ _))).
    + by rewrite handleAppMessage_transcript.
    + by rewrite handleAppMessage_log.
Qed.

Lemma isConnected_commit w : isConnected (commit w) = isConnected w.
Proof. unfold isConnected. by rewrite hook_commit. Qed.

(** Handlers other than the router leave both stores alone. *)
Lemma handle_stores ev w :
  (∀ now data, ev ≠ AppMessage now data) →
  messages (app (handle ev w)) = messages (app w)
  ∧ logs (app (handle ev w)) = logs (app w).
Proof.
  intros Hmsg. destruct ev; try (rewrite handle_app; [done|by intros|by intros]).
  done.
Qed.

(** The effect keeps its dependency up to date after every event. *)
Lemma reachable_dep evs :
  isConnectedDep (app (run initial evs)) = Some (isConnected (run initial evs)).
Proof.
  induction evs as [|ev evs IH] using rev_ind; [reflexivity|].
  rewrite run_snoc. unfold step. rewrite isConnected_commit.
  unfold commit. destruct (decide _) as [E|E]; [done|].
  by destruct (isConnected (handle ev (run initial evs))).
Qed.

(** Leaving [connected] empties both stores. *)
Lemma step_leaving_connected w ev :
  isConnectedDep (app w) = Some true →
  isConnected (step w ev) = false →
  messages (app (step w ev)) = [] ∧ logs (app (step w ev)) = [].
Proof.
  unfold step. rewrite isConnected_commit. intros Hdep Hc.
  unfold commit. rewrite handle_isConnectedDep, Hdep, Hc.
  rewrite decide_False by done. done.
Qed.







(** ** C10: explicit ids and the fallback counters *)

(** C10: a transcript message with an explicit [messageId] leaves both
    counters as they were; and there is a run in which a later id-less
    message of the same role is given the identity of an earlier explicit
    one, so that the upsert replaces the earlier entry instead of appending:
    explicit ["user-1"], then an id-less user fragment minted as ["user-1"]. *)
Theorem C10_explicit_id_skips_counter_and_can_collide :
  (∀ (now : Z) (d : gmap string JsValue) (w : World),
     is_transcript d = true →
     nullish (prop d "messageId") = false →
     globals (handleAppMessage now (DataObject d) w) = globals w)
  ∧ ∃ (w : World) (now1 now2 : Z) (d1 d2 : gmap string JsValue),
      reachable w
      ∧ is_transcript d1 = true ∧ is_transcript d2 = true
      ∧ nullish (prop d1 "messageId") = false
      ∧ nullish (prop d2 "messageId") = true
      ∧ prop d1 "role" = prop d2 "role"
      ∧ mintedId d2 (globals (handleAppMessage now1 (DataObject d1) w))
        = mintedId d1 (globals w)
      ∧ messages (app (handleAppMessage now1 (DataObject d1) w))
        = [buildTranscript now1 d1 (JNum 1)]
      ∧ messages (app (handleAppMessage now2 (DataObject d2)
                         (handleAppMessage now1 (DataObject d1) w)))
        = [buildTranscript now2 d2 (JNum 1)].
Proof.
  split.
  - intros now d w Ht Hn. rewrite handleAppMessage_transcript by done.
    by rewrite resolveMessageId_explicit.
  - exists w_connected, 1%Z, 2%Z,
      (transcript_fields (JStr "user") (JNum 1) "What is chapter one about?"
         (JBool true)),
      (idless_fields (JStr "user") "And chapter two?" (JBool true)).
    split.
    { exists [SessionCreated "s1"; ConnectCalled; FetchSettled true TeardownOk;
              JoinedMeeting; JoinSettled true TeardownOk]. by vm_compute. }
    by vm_compute.
Qed.

Lemma C10_explicit_id_witness :
  is_transcript (transcript_fields (JStr "user") (JNum 1) "q" (JBool true)) = true
  ∧ nullish (prop (transcript_fields (JStr "user") (JNum 1) "q" (JBool true))
               "messageId") = false
  ∧ globals (handleAppMessage 1
               (transcript_msg (JStr "user") (JNum 1) "q" (JBool true))
               w_connected)
    = globals w_connected.
Proof.
  split; [reflexivity|]. split; [reflexivity|].
  exact (proj1 C10_explicit_id_skips_counter_and_can_collide 1%Z
           (transcript_fields (JStr "user") (JNum 1) "q" (JBool true))
           w_connected eq_refl eq_refl).
Defined.

(** * Further properties of the hook and its caller *)

(** ** Reachable states *)

Lemma commit_settled w :
  isConnectedDep (app w) = Some (isConnected w) → commit w = w.
Proof. unfold commit. intros H. by rewrite decide_True. Qed.

Lemma env_commit w : env (commit w) = env w.
Proof.
  unfold commit. destruct (decide _); [done|]. by destruct (isConnected w).
Qed.

Lemma commit_app_rest w :
  sessionId (app (commit w)) = sessionId (app w)
  ∧ currentText (app (commit w)) = currentText (app w).
Proof.
  unfold commit. destruct (decide _); [done|]. by destruct (isConnected w).
Qed.

Lemma disconnect_hook t w :
  connectionStatus (hook (disconnect t w)) = disconnected
  ∨ hook (disconnect t w) = hook w.
Proof.
  unfold disconnect. destruct (callObjectRef (hook w)); [destruct t|]; auto.
Qed.

Lemma handleAppMessage_env now data w :
  env (handleAppMessage now data w) = env w
  ∧ sessionId (app (handleAppMessage now data w)) = sessionId (app w).
Proof.
  destruct (handleAppMessage_cases now data w)
    as [->|[(d&->&H)|[(d&->&H)|(d&->&H)]]]; [done|..].
  - rewrite handleAppMessage_status by done.
    unfold handleStatusChange. by destruct (_ && _).
  - by rewrite handleAppMessage_transcript.
  - by rewrite handleAppMessage_log.
Qed.

Lemma handleAppMessage_currentText now data w :
  currentText (app (handleAppMessage now data w)) = currentText (app w)
  ∨ currentText (app (handleAppMessage now data w)) = "".
Proof.
  destruct (handleAppMessage_cases now data w)
    as [->|[(d&->&H)|[(d&->&H)|(d&->&H)]]]; [by left|..].
  - rewrite handleAppMessage_status by done.
    unfold handleStatusChange. destruct (_ && _); [by right|by left].
  - left. by rewrite handleAppMessage_transcript.
  - left. by rewrite handleAppMessage_log.
Qed.

(** X1: in every reachable state the ids of the stored transcript entries
    are pairwise distinct, so the keys of the rendered list are unique. *)
Theorem X1_store_ids_pairwise_distinct :
  ∀ (evs : list Event),
    NoDup (TranscriptMessage.id <$> messages (app (run initial evs))).
Proof. intros evs. apply reachable_ids_NoDup. by exists evs. Qed.

(** X2: the current-text line is never shown: [currentText] starts empty
    and the only write to it, in [handleStatusChange], stores the empty
    string, so it is empty in every reachable state. *)
Theorem X2_currentText_always_empty :
  ∀ (evs : list Event), currentText (app (run initial evs)) = "".
Proof.
  intros evs. induction evs as [|ev evs IH] using rev_ind; [by vm_compute|].
  rewrite run_snoc. unfold step.
  rewrite (proj2 (commit_app_rest _)).
  destruct ev; try (rewrite handle_app; [done|by intros|by intros]).
  - done.
  - simpl. destruct (has_transport (run initial evs)); [|done].
    destruct (handleAppMessage_currentText now data (run initial evs))
      as [-> | ->]; done.
Qed.

Lemma reachable_connected_call evs :
  connectionStatus (hook (run initial evs)) = connected →
  is_Some (callObjectRef (hook (run initial evs))).
Proof.
  induction evs as [|ev evs IH] using rev_ind; [by vm_compute|].
  rewrite run_snoc. unfold step. rewrite hook_commit.
  set (w := run initial evs) in *. destruct ev; simpl.
  - done.
  - unfold connect. destruct (_ || _); [done|]. by simpl.
  - destruct (pendingFetch (env w)); [done|].
    unfold connect_resume, connect_catch.
    destruct ok; [intros _; simpl; eauto|].
    destruct (disconnect_hook t (setConnectionStatus disconnected (setPendingFetch n w)))
      as [-> | ->]; by simpl.
  - destruct (pendingJoin (env w)); [done|].
    unfold connect_catch. destruct ok; [done|].
    destruct (disconnect_hook t (setConnectionStatus disconnected (setPendingJoin n w)))
      as [-> | ->]; by simpl.
  - destruct (has_transport w) eqn:E; [|done]. intros _. simpl.
    unfold has_transport in E. by apply bool_decide_eq_true in E.
  - destruct (has_transport w); [by simpl|done].
  - destruct (has_transport w); [|done]. unfold on_error.
    destruct (disconnect_hook t (setConnectionStatus disconnected w))
      as [-> | ->]; by simpl.
  - destruct (has_transport w); [|done].
    destruct (handleAppMessage_connection now data w) as (-> & _ & ->). done.
  - destruct (disconnect_hook t w) as [-> | ->]; done.
  - unfold toggleMute. destruct (callObjectRef (hook w)) eqn:E;
      [|by rewrite E].
    intros _. simpl. eauto.
Qed.



(** X4: a payload the router cannot route is dropped without a trace: when
    [event.data] is nullish (the property read throws and is caught) or its
    [type] is none of ['status'], ['transcript'], ['log'], handling it in a
    reachable state leaves the whole state exactly as it was. *)
Theorem X4_unrouted_message_changes_nothing :
  ∀ (evs : list Event) (now : Z) (data : EventData),
    unrouted data →
    step (run initial evs) (AppMessage now data) = run initial evs.
Proof.
  intros evs now data Hun. unfold step. simpl handle.
  assert (handleAppMessage now data (run initial evs) = run initial evs) as ->.
  { destruct data as [|d]; [done|]. destruct Hun as (Hs & Ht & Hl).
    by apply handleAppMessage_other. }
  destruct (has_transport (run initial evs));
    apply commit_settled, reachable_dep.
Qed.

Lemma X4_unrouted_witness :
  unrouted (DataObject {[ "type" := JStr "metrics"; "text" := JStr "x" ]})
  ∧ step (run initial [SessionCreated "s1"; ConnectCalled;
                       FetchSettled true TeardownOk; JoinedMeeting])
      (AppMessage 3 (DataObject {[ "type" := JStr "metrics"; "text" := JStr "x" ]}))
    = run initial [SessionCreated "s1"; ConnectCalled;
                   FetchSettled true TeardownOk; JoinedMeeting].
Proof.
  assert (H : unrouted (DataObject {[ "type" := JStr "metrics"; "text" := JStr "x" ]})).
  { by vm_compute. }
  split; [exact H|].
  exact (X4_unrouted_message_changes_nothing _ 3%Z _ H).
Defined.

(** X5: no app message can connect, disconnect, mute or reach the
    transport: whatever the payload, handling it leaves the connection
    state, the mute flag, the call object, the session id, the pending
    requests and the trace of transport operations unchanged. *)
Theorem X5_app_message_leaves_connection_alone :
  ∀ (w : World) (now : Z) (data : EventData),
    connectionStatus (hook (step w (AppMessage now data)))
    = connectionStatus (hook w)
    ∧ isMuted (hook (step w (AppMessage now data))) = isMuted (hook w)
    ∧ callObjectRef (hook (step w (AppMessage now data)))
      = callObjectRef (hook w)
    ∧ sessionId (app (step w (AppMessage now data))) = sessionId (app w)
    ∧ env (step w (AppMessage now data)) = env w.
Proof.
  intros w now data. unfold step.
  rewrite hook_commit, env_commit, (proj1 (commit_app_rest _)). simpl handle.
  destruct (has_transport w); [|done].
  destruct (handleAppMessage_connection now data w) as (-> & -> & ->).
  destruct (handleAppMessage_env now data w) as (-> & ->). done.
Qed.

(** ** [connect], errors and teardown *)



Lemma disconnect_after_disconnected t w :
  connectionStatus (hook w) = disconnected →
  connectionStatus (hook (disconnect t w)) = disconnected.
Proof. intros H. destruct (disconnect_hook t w) as [-> | ->]; done. Qed.

(** X7: every failure path ends in [disconnected], however the teardown it
    starts settles: a transport ['error'], a failed credential request and
    a rejected [join] all set [disconnected] before calling [disconnect],
    and a rejected [leave] or [destroy] does not undo it.  When the failure
    takes a reachable state out of [connected], the transcript and the log
    are emptied. *)
Theorem X7_failures_end_disconnected :
  ∀ (evs : list Event) (t : Teardown),
    (has_transport (run initial evs) = true →
     connectionStatus (hook (step (run initial evs) (TransportError t)))
     = disconnected)
    ∧ (pendingFetch (env (run initial evs)) ≠ 0 →
       connectionStatus (hook (step (run initial evs) (FetchSettled false t)))
       = disconnected)
    ∧ (pendingJoin (env (run initial evs)) ≠ 0 →
       connectionStatus (hook (step (run initial evs) (JoinSettled false t)))
       = disconnected)
    ∧ (isConnected (run initial evs) = true →
       messages (app (step (run initial evs) (TransportError t))) = []
       ∧ logs (app (step (run initial evs) (TransportError t))) = []).
Proof.
  intros evs t. set (w := run initial evs). split_and!.
  - intros Ht. unfold step. rewrite hook_commit. simpl. rewrite Ht.
    by apply disconnect_after_disconnected.
  - intros Hp. unfold step. rewrite hook_commit. simpl.
    destruct (pendingFetch (env w)); [done|].
    by apply disconnect_after_disconnected.
  - intros Hp. unfold step. rewrite hook_commit. simpl.
    destruct (pendingJoin (env w)); [done|].
    by apply disconnect_after_disconnected.
  - subst w. intros Hc. apply step_leaving_connected.
    + by rewrite reachable_dep, Hc.
    + unfold isConnected, step. rewrite hook_commit. simpl.
      assert (has_transport (run initial evs) = true) as ->.
      { unfold has_transport. apply bool_decide_eq_true.
        apply reachable_connected_call.
        unfold isConnected in Hc. by apply bool_decide_eq_true in Hc. }
      unfold on_error. rewrite disconnect_after_disconnected by done. done.
Qed.

Lemma X7_failures_witness :
  has_transport (run initial [SessionCreated "s1"; ConnectCalled;
                              FetchSettled true TeardownOk; JoinedMeeting])
  = true
  ∧ connectionStatus
      (hook (step (run initial [SessionCreated "s1"; ConnectCalled;
                                FetchSettled true TeardownOk; JoinedMeeting])
               (TransportError LeaveRejects)))
    = disconnected.
Proof.
  split; [by vm_compute|].
  apply (X7_failures_end_disconnected
           [SessionCreated "s1"; ConnectCalled; FetchSettled true TeardownOk;
            JoinedMeeting] LeaveRejects).
  by vm_compute.
Defined.

(** What the connection machine reads: the hook state, the environment and
    the session id.  Rendering does not touch them, and a handler other
    than the router computes them from them alone. *)
Lemma handle_connection_core ev w1 w2 :
  (∀ now data, ev ≠ AppMessage now data) →
  hook w1 = hook w2 → env w1 = env w2 →
  sessionId (app w1) = sessionId (app w2) →
  hook (handle ev w1) = hook (handle ev w2)
  ∧ env (handle ev w1) = env (handle ev w2)
  ∧ sessionId (app (handle ev w1)) = sessionId (app (handle ev w2)).
Proof.
  intros Hmsg Hh He Hs.
  destruct w1 as [g1 h1 [s1 m1 l1 c1 d1] e1], w2 as [g2 h2 [s2 m2 l2 c2 d2] e2].
  simpl in Hh, He, Hs. subst h2 e2 s2.
  destruct h1 as [c p mu [call|]], e1 as [pf pj tl];
    destruct ev; try (by destruct (Hmsg now data));
    simpl; unfold connect, connect_resume, connect_catch, on_error,
             on_joined_meeting, on_left_meeting, disconnect, toggleMute,
             has_transport;
    simpl; repeat case_match; simpl; done.
Qed.

Lemma step_connection_core ev w1 w2 :
  (∀ now data, ev ≠ AppMessage now data) →
  hook w1 = hook w2 → env w1 = env w2 →
  sessionId (app w1) = sessionId (app w2) →
  hook (step w1 ev) = hook (handle ev w2)
  ∧ env (step w1 ev) = env (handle ev w2)
  ∧ sessionId (app (step w1 ev)) = sessionId (app (handle ev w2)).
Proof.
  intros Hmsg Hh He Hs. unfold step.
  rewrite hook_commit, env_commit, (proj1 (commit_app_rest _)).
  by apply handle_connection_core.
Qed.

(** X8: a [disconnect] issued while [connect] is still waiting for the
    credentials does not cancel the connect.  From [disconnected] with a
    session id: the user connects and disconnects (with no earlier call
    object left in the ref, or a teardown that resolves, the state is back
    at [disconnected]); the credentials arrive, and a call object is
    created and joined all the same; its ['joined-meeting'] event then
    makes the state [connected]. *)
Theorem X8_disconnect_does_not_cancel_pending_connect :
  ∀ (w : World) (t t' : Teardown),
    connectionStatus (hook w) = disconnected →
    truthy_session (sessionId (app w)) = true →
    (t = TeardownOk ∨ callObjectRef (hook w) = None →
     connectionStatus (hook (run w [ConnectCalled; DisconnectCalled t]))
     = disconnected)
    ∧ connectionStatus (hook (run w (disconnect_during_fetch t t'))) = connected
    ∧ callObjectRef (hook (run w (disconnect_during_fetch t t')))
      = Some (mkCall true).
Proof.
  intros w t t' Hc Hs.
  unfold disconnect_during_fetch, run. simpl foldl.
  assert (N1 : ∀ now data, ConnectCalled ≠ AppMessage now data) by done.
  assert (N2 : ∀ now data, DisconnectCalled t ≠ AppMessage now data) by done.
  assert (N3 : ∀ now data, FetchSettled true t' ≠ AppMessage now data) by done.
  assert (N4 : ∀ now data, JoinedMeeting ≠ AppMessage now data) by done.
  destruct (step_connection_core ConnectCalled w w N1 eq_refl eq_refl eq_refl)
    as (H1 & E1 & S1).
  destruct (step_connection_core (DisconnectCalled t) _ _ N2 H1 E1 S1)
    as (H2 & E2 & S2).
  destruct (step_connection_core (FetchSettled true t') _ _ N3 H2 E2 S2)
    as (H3 & E3 & S3).
  destruct (step_connection_core JoinedMeeting _ _ N4 H3 E3 S3)
    as (H4 & E4 & S4).
  rewrite H2, H4. clear -Hc Hs.
  revert Hc Hs.
  destruct w as [g [c p mu r] [s m l ct d] [pf pj tl]]. simpl.
  intros -> Hs. unfold connect. simpl. rewrite Hs. simpl.
  destruct r as [call|], t; simpl; split_and!; try done;
    intros [?|?]; done.
Qed.

Lemma X8_pending_connect_witness :
  connectionStatus (hook (run initial [SessionCreated "s1"])) = disconnected
  ∧ truthy_session (sessionId (app (run initial [SessionCreated "s1"]))) = true
  ∧ connectionStatus
      (hook (run (run initial [SessionCreated "s1"])
               (disconnect_during_fetch TeardownOk TeardownOk))) = connected.
Proof.
  split; [by vm_compute|]. split; [by vm_compute|].
  apply (X8_disconnect_does_not_cancel_pending_connect
           (run initial [SessionCreated "s1"]) TeardownOk TeardownOk);
    by vm_compute.
Defined.

(** ** The transcript store, entry by entry *)

Lemma handleTranscript_ids_present m prev :
  TranscriptMessage.id m ∈ TranscriptMessage.id <$> prev →
  TranscriptMessage.id <$> handleTranscript m prev
  = TranscriptMessage.id <$> prev.
Proof.
  induction prev as [|x l IH]; [by intros ?%elem_of_nil|].
  rewrite handleTranscript_cons, fmap_cons.
  destruct (decide (TranscriptMessage.id x = TranscriptMessage.id m)) as [E|E].
  - intros _. by rewrite fmap_cons, E.
  - intros [?|Hin]%elem_of_cons; [congruence|].
    by rewrite fmap_cons, IH.
Qed.

Lemma handleTranscript_idem m prev :
  handleTranscript m (handleTranscript m prev) = handleTranscript m prev.
Proof.
  induction prev as [|x l IH].
  - rewrite handleTranscript_nil, handleTranscript_cons. by rewrite decide_True.
  - rewrite handleTranscript_cons.
    destruct (decide (TranscriptMessage.id x = TranscriptMessage.id m)) as [E|E].
    + rewrite handleTranscript_cons. by rewrite decide_True.
    + rewrite handleTranscript_cons, decide_False by done. by rewrite IH.
Qed.

(** X9: an update for an id already stored replaces that entry where it
    stands: the sequence of ids (and so the length and the position of
    every entry) is unchanged, and entries with any other id are untouched
    whether or not the id was stored; applying the same update twice is the
    same as applying it once. *)
Theorem X9_upsert_replaces_in_place :
  ∀ (m : TranscriptMessage.t) (prev : list TranscriptMessage.t),
    (TranscriptMessage.id m ∈ TranscriptMessage.id <$> prev →
     TranscriptMessage.id <$> handleTranscript m prev
     = TranscriptMessage.id <$> prev
     ∧ length (handleTranscript m prev) = length prev)
    ∧ (∀ i, i ≠ TranscriptMessage.id m →
         entries_with_id i (handleTranscript m prev) = entries_with_id i prev)
    ∧ m ∈ handleTranscript m prev
    ∧ handleTranscript m (handleTranscript m prev) = handleTranscript m prev.
Proof.
  intros m prev. split_and!.
  - intros Hin. pose proof (handleTranscript_ids_present m prev Hin) as Hids.
    split; [done|].
    by rewrite <- (length_fmap TranscriptMessage.id), Hids, length_fmap.
  - intros i Hi. by apply handleTranscript_ids_other.
  - apply handleTranscript_mem.
  - apply handleTranscript_idem.
Qed.

Lemma X9_upsert_witness :
  "user-1" ∈ TranscriptMessage.id
             <$> [TranscriptMessage.mk "user-1" (JStr "user") (JStr "hel") (JNum 1) (JBool false);
                  TranscriptMessage.mk "assistant-1" (JStr "assistant") (JStr "Hi") (JNum 2) (JBool true)]
  ∧ TranscriptMessage.id
      <$> handleTranscript
            (TranscriptMessage.mk "user-1" (JStr "user") (JStr "hello") (JNum 3) (JBool true))
            [TranscriptMessage.mk "user-1" (JStr "user") (JStr "hel") (JNum 1) (JBool false);
             TranscriptMessage.mk "assistant-1" (JStr "assistant") (JStr "Hi") (JNum 2) (JBool true)]
    = ["user-1"; "assistant-1"].
Proof.
  assert (H : "user-1" ∈ TranscriptMessage.id
             <$> [TranscriptMessage.mk "user-1" (JStr "user") (JStr "hel") (JNum 1) (JBool false);
                  TranscriptMessage.mk "assistant-1" (JStr "assistant") (JStr "Hi") (JNum 2) (JBool true)]).
  { simpl. constructor. }
  split; [exact H|].
  exact (proj1 (proj1 (X9_upsert_replaces_in_place
                         (TranscriptMessage.mk "user-1" (JStr "user") (JStr "hello") (JNum 3) (JBool true))
                         _) H)).
Defined.

Lemma handleTranscript_other_role m l r :
  Forall built_by_router l → built_by_router m →
  is_Role r → TranscriptMessage.role m ≠ r →
  filter (λ x, TranscriptMessage.role x = r) (handleTranscript m l)
  = filter (λ x, TranscriptMessage.role x = r) l.
Proof.
  intros Hl Hm Hr Hne. induction l as [|x l IH].
  - rewrite handleTranscript_nil, filter_cons, decide_False by done. done.
  - apply Forall_cons in Hl as [Hx Hl]. rewrite handleTranscript_cons.
    destruct (decide (TranscriptMessage.id x = TranscriptMessage.id m)) as [E|E].
    + assert (TranscriptMessage.role x = TranscriptMessage.role m) as Hsame.
      { destruct Hx as (Rx & a & Ex), Hm as (Rm & b & Em).
        apply (role_of_compositeId _ _ a b Rx Rm). congruence. }
      rewrite !filter_cons, !decide_False by congruence. done.
    + rewrite !filter_cons, IH by done. done.
Qed.

(** X10: the two roles never interfere in the store.  In a run whose
    transcript messages carry ['user'] or ['assistant'], handling one more
    transcript message of one role leaves the stored entries of the other
    role exactly as they were, in the same order, whatever [messageId] the
    message carries. *)
Theorem X10_update_leaves_other_role_untouched :
  ∀ (evs : list Event) (now : Z) (d : gmap string JsValue) (r : JsValue),
    roles_typed evs →
    is_transcript d = true →
    is_Role (prop d "role") → is_Role r → prop d "role" ≠ r →
    filter (λ x, TranscriptMessage.role x = r)
      (messages (app (handleAppMessage now (DataObject d) (run initial evs))))
    = filter (λ x, TranscriptMessage.role x = r)
        (messages (app (run initial evs))).
Proof.
  intros evs now d r Hty Ht Hrole Hr Hne.
  rewrite handleAppMessage_transcript by done.
  cbn [messages app setMessages with_app].
  apply handleTranscript_other_role; [|split; [done|simpl; eauto]|done|done].
  by apply reachable_entries_built.
Qed.

Lemma X10_other_role_witness :
  roles_typed partial_then_final_1
  ∧ is_transcript (transcript_fields (JStr "assistant") (JNum 1) "Hi" (JBool true)) = true
  ∧ is_Role (JStr "assistant") ∧ is_Role (JStr "user")
  ∧ JStr "assistant" ≠ JStr "user"
  ∧ filter (λ x, TranscriptMessage.role x = JStr "user")
      (messages (app (handleAppMessage 9
                        (transcript_msg (JStr "assistant") (JNum 1) "Hi" (JBool true))
                        (run initial partial_then_final_1))))
    = filter (λ x, TranscriptMessage.role x = JStr "user")
        (messages (app (run initial partial_then_final_1))).
Proof.
  assert (Hty : roles_typed partial_then_final_1).
  { unfold roles_typed, partial_then_final_1.
    repeat (apply Forall_cons; split; [first [exact I|intros _; by left]|]).
    apply Forall_nil_2. }
  assert (Ha : is_Role (JStr "assistant")) by (by right).
  assert (Hu : is_Role (JStr "user")) by (by left).
  assert (Hne : JStr "assistant" ≠ JStr "user") by done.
  split; [exact Hty|]. split; [by vm_compute|]. split; [exact Ha|].
  split; [exact Hu|]. split; [exact Hne|].
  apply (X10_update_leaves_other_role_untouched partial_then_final_1 9%Z
           (transcript_fields (JStr "assistant") (JNum 1) "Hi" (JBool true))
           (JStr "user") Hty); [by vm_compute|exact Ha|exact Hu|exact Hne].
Defined.

(** ** The fallback counters along a run *)

(** What one event does to the counters and the transcript store together. *)
Lemma step_store_and_counters w ev :
  (globals (step w ev) = globals w
   ∧ (messages (app (step w ev)) = messages (app w)
      ∨ messages (app (step w ev)) = []))
  ∨ ∃ now d, ev = AppMessage now (DataObject d) ∧ is_transcript d = true
      ∧ globals (step w ev)
        = (resolveMessageId (prop d "role") (prop d "messageId") (globals w)).2
      ∧ (messages (app (step w ev))
         = handleTranscript (buildTranscript now d (mintedNumber d (globals w)))
             (messages (app w))
         ∨ messages (app (step w ev)) = []).
Proof.
  unfold step. rewrite globals_commit.
  assert ((∃ now data, ev = AppMessage now data)
          ∨ ¬ ∃ now data, ev = AppMessage now data) as [(now & data & ->)|Hn].
  { destruct ev; try (right; intros (? & ? & [=]); done). left. eauto. }
  - simpl handle. destruct (has_transport w).
    + destruct (handleAppMessage_cases now data w)
        as [E|[(d&->&H)|[(d&->&H)|(d&->&H)]]].
      * left. rewrite E. split; [done|]. apply commit_messages.
      * left. split.
        -- rewrite handleAppMessage_status by done.
           unfold handleStatusChange. by destruct (_ && _).
        -- destruct (commit_messages (handleAppMessage now (DataObject d) w))
             as [-> | ->]; [|by right].
           left. rewrite handleAppMessage_status by done.
           by rewrite (proj1 (handleStatusChange_stores _ _)).
      * right. exists now, d. split_and!; [done|done|..].
        -- by rewrite handleAppMessage_transcript.
        -- destruct (commit_messages (handleAppMessage now (DataObject d) w))
             as [-> | ->]; [|by right].
           left. by rewrite handleAppMessage_transcript.
      * left. split; [by rewrite handleAppMessage_log|].
        destruct (commit_messages (handleAppMessage now (DataObject d) w))
          as [-> | ->]; [|by right].
        left. by rewrite handleAppMessage_log.
    + left. split; [done|]. apply commit_messages.
  - left. assert (∀ now data, ev ≠ AppMessage now data) as Hmsg.
    { intros now data ->. apply Hn. eauto. }
    rewrite handle_globals by done. split; [done|].
    destruct (commit_messages (handle ev w)) as [-> | ->]; [|by right].
    left. by apply handle_stores.
Qed.

Lemma minted_below_mono g g' m :
  (∀ r, (counter_of r g ≤ counter_of r g')%Z) →
  minted_below g m → minted_below g' m.
Proof.
  intros Hmono (r & n & Hr & Hid & Hn). exists r, n. split_and!; [done..|].
  specialize (Hmono r). lia.
Qed.

Lemma idless_typed_app evs1 evs2 :
  idless_typed (evs1 ++ evs2) → idless_typed evs1.
Proof. unfold idless_typed. by intros [H _]%Forall_app. Qed.

(** Every stored id was minted from a counter value that has been passed. *)
Lemma reachable_minted_below evs :
  idless_typed evs →
  Forall (minted_below (globals (run initial evs)))
    (messages (app (run initial evs))).
Proof.
  induction evs as [|ev evs IH] using rev_ind; intros Hty.
  - vm_compute. apply Forall_nil_2.
  - apply Forall_app in Hty as [Hevs Hev]. apply Forall_cons in Hev as [Hev _].
    specialize (IH Hevs). rewrite run_snoc.
    set (w := run initial evs) in *.
    assert (Hold : Forall (minted_below (globals (step w ev))) (messages (app w))).
    { eapply Forall_impl; [exact IH|]. intros m. apply minted_below_mono.
      intros r. apply step_counter_mono. }
    destruct (step_store_and_counters w ev)
      as [(_ & [-> | ->])|(now & d & -> & Ht & Hg & [-> | ->])];
      [done|apply Forall_nil_2| |apply Forall_nil_2].
    apply Forall_forall. intros m Hm.
    destruct (handleTranscript_elem _ _ _ Hm) as [->|Hin].
    + destruct (Hev Ht) as [Hn Hr].
      destruct (resolveMessageId_idless (prop d "role") (prop d "messageId")
                  (globals w) Hn) as (E1 & E2 & _).
      exists (prop d "role"), (pre_increment (counter_of (prop d "role") (globals w))).
      split_and!; [done| |].
      * simpl. unfold mintedNumber. by rewrite E1.
      * rewrite Hg, E2. lia.
    + rewrite Forall_forall in Hold. by apply Hold.
Qed.

(** X11: when the upstream never sends a [messageId], fallback identities
    do what they are for.  In a run whose transcript messages all omit
    [messageId] and carry ['user'] or ['assistant'], one more such message,
    received while its role's counter is below [2^53], matches no stored
    entry: it is appended as a new entry, numbered one above the counter. *)
Theorem X11_idless_fragment_is_appended :
  ∀ (evs : list Event) (now : Z) (d : gmap string JsValue),
    idless_typed evs →
    is_transcript d = true →
    nullish (prop d "messageId") = true →
    is_Role (prop d "role") →
    (counter_of (prop d "role") (globals (run initial evs)) < MAX_EXACT)%Z →
    messages (app (handleAppMessage now (DataObject d) (run initial evs)))
    = messages (app (run initial evs))
      ++ [buildTranscript now d
            (JNum (counter_of (prop d "role") (globals (run initial evs)) + 1))].
Proof.
  intros evs now d Hty Ht Hn Hr Hlt.
  set (w := run initial evs) in *.
  destruct (resolveMessageId_idless (prop d "role") (prop d "messageId")
              (globals w) Hn) as (E1 & _ & _).
  rewrite pre_increment_exact in E1 by done.
  rewrite handleAppMessage_transcript by done.
  cbn [messages app setMessages with_app].
  unfold mintedNumber. rewrite E1.
  apply handleTranscript_fresh.
  pose proof (reachable_minted_below evs Hty) as Hinv.
  eapply Forall_impl; [exact Hinv|].
  intros m (r & n & Rr & Hid & Hle). simpl. rewrite Hid. intros Heq.
  assert (r = prop d "role") as -> by (by eapply role_of_compositeId).
  apply compositeId_inj_number in Heq. fold w in Hle. lia.
Qed.

Lemma X11_idless_witness :
  idless_typed one_idless_fragment
  ∧ TranscriptMessage.id
      <$> messages
            (app (handleAppMessage 2
                    (idless_msg (JStr "user") "again" (JBool true))
                    (run initial one_idless_fragment)))
    = ["user-1"; "user-2"].
Proof.
  assert (Hty : idless_typed one_idless_fragment).
  { unfold idless_typed, one_idless_fragment.
    repeat (apply Forall_cons; split; [exact I|]).
    apply Forall_cons; split; [|apply Forall_nil_2].
    intros _. split; [by vm_compute|by left]. }
  split; [exact Hty|].
  unfold idless_msg.
  rewrite (X11_idless_fragment_is_appended one_idless_fragment 2%Z
             (idless_fields (JStr "user") "again" (JBool true)) Hty);
    [by vm_compute|by vm_compute|by vm_compute|by left|by vm_compute].
Defined.

Lemma pre_increment_range n :
  (0 ≤ n ≤ MAX_EXACT)%Z → (0 ≤ pre_increment n ≤ MAX_EXACT)%Z.
Proof.
  unfold pre_increment. destruct (Z.ltb_spec n MAX_EXACT); lia.
Qed.

Lemma reachable_counters_range evs :
  (0 ≤ globalUserMessageId (globals (run initial evs)) ≤ MAX_EXACT)%Z
  ∧ (0 ≤ globalAssistantMessageId (globals (run initial evs)) ≤ MAX_EXACT)%Z.
Proof.
  induction evs as [|ev evs [IHu IHa]] using rev_ind; [by vm_compute|].
  rewrite run_snoc.
  destruct (step_store_and_counters (run initial evs) ev)
    as [(-> & _)|(now & d & _ & _ & -> & _)]; [done|].
  unfold resolveMessageId.
  destruct (nullish (prop d "messageId")); simpl; [|done].
  destruct (strict_eq (prop d "role") (JStr "user")); simpl;
    split; try done;
    first [exact (pre_increment_range _ IHu)|exact (pre_increment_range _ IHa)].
Qed.

(** X12: the fallback counters only ever count up, and never past [2^53]:
    in every reachable state both lie between 0 and [2^53], and no further
    events make either of them smaller. *)
Theorem X12_counters_monotone_and_bounded :
  ∀ (evs evs' : list Event),
    (0 ≤ globalUserMessageId (globals (run initial evs)) ≤ MAX_EXACT)%Z
    ∧ (0 ≤ globalAssistantMessageId (globals (run initial evs)) ≤ MAX_EXACT)%Z
    ∧ (globalUserMessageId (globals (run initial evs))
       ≤ globalUserMessageId (globals (run initial (evs ++ evs'))))%Z
    ∧ (globalAssistantMessageId (globals (run initial evs))
       ≤ globalAssistantMessageId (globals (run initial (evs ++ evs'))))%Z.
Proof.
  intros evs evs'. destruct (reachable_counters_range evs) as [Hu Ha].
  split; [exact Hu|]. split; [exact Ha|]. split; rewrite run_app.
  - apply (run_counter_mono evs' (run initial evs) (JStr "user")).
  - apply (run_counter_mono evs' (run initial evs) (JStr "assistant")).
Qed.

(** ** The ordered transcript view *)

Lemma sort_insert_Permutation x l : sort_insert x l ≡ₚ x :: l.
Proof.
  induction l as [|y l IH]; simpl; [done|].
  destruct (compareFn x y <=? 0)%Z; [done|].
  rewrite IH. apply Permutation_swap.
Qed.

Lemma stable_sort_Permutation l : stable_sort l ≡ₚ l.
Proof.
  induction l as [|x l IH]; simpl; [done|].
  by rewrite sort_insert_Permutation, IH.
Qed.

Lemma sort_insert_sorted x l :
  StronglySorted (λ p q : Z * TranscriptMessage.t, (p.1 ≤ q.1)%Z) l →
  StronglySorted (λ p q : Z * TranscriptMessage.t, (p.1 ≤ q.1)%Z)
    (sort_insert x l).
Proof.
  induction 1 as [|y l Hl IH Hy]; simpl.
  - repeat constructor.
  - unfold compareFn. destruct (Z.leb_spec (x.1 - y.1) 0) as [Hle|Hgt].
    + constructor; [by constructor|].
      constructor; [lia|]. eapply Forall_impl; [exact Hy|]. simpl. lia.
    + constructor; [done|].
      rewrite sort_insert_Permutation. constructor; [lia|done].
Qed.

Lemma stable_sort_sorted l :
  StronglySorted (λ p q : Z * TranscriptMessage.t, (p.1 ≤ q.1)%Z)
    (stable_sort l).
Proof.
  induction l as [|x l IH]; simpl; [constructor|by apply sort_insert_sorted].
Qed.

(** Insertion never moves an element past one with the same key. *)
Lemma sort_insert_filter k x l :
  filter (λ p : Z * TranscriptMessage.t, p.1 = k) (sort_insert x l)
  = filter (λ p : Z * TranscriptMessage.t, p.1 = k) (x :: l).
Proof.
  induction l as [|y l IH]; simpl; [done|].
  unfold compareFn. destruct (Z.leb_spec (x.1 - y.1) 0) as [Hle|Hgt]; [done|].
  rewrite (filter_cons _ y), IH, !filter_cons.
  destruct (decide (x.1 = k)), (decide (y.1 = k)); try done. lia.
Qed.

Lemma stable_sort_filter k l :
  filter (λ p : Z * TranscriptMessage.t, p.1 = k) (stable_sort l)
  = filter (λ p : Z * TranscriptMessage.t, p.1 = k) l.
Proof.
  induction l as [|x l IH]; simpl; [done|].
  by rewrite sort_insert_filter, !filter_cons, IH.
Qed.

Lemma keyed_Some l kl :
  keyed l = Some kl →
  snd <$> kl = l
  ∧ Forall (λ p, TranscriptMessage.timestamp p.2 = JNum p.1) kl.
Proof.
  unfold keyed. intros H%mapM_Some. induction H as [|m p l kl Hmp _ [IH1 IH2]].
  - done.
  - unfold timestamp_number in Hmp.
    destruct (TranscriptMessage.timestamp m) eqn:E; simplify_eq/=.
    split; [done|]. by constructor.
Qed.

Lemma keyed_total l :
  Forall (λ m, is_Some (timestamp_number m)) l → is_Some (keyed l).
Proof.
  intros H. unfold keyed. apply mapM_is_Some.
  eapply Forall_impl; [exact H|]. intros m [k Hk].
  unfold compose. rewrite Hk. simpl. eauto.
Qed.

Lemma filter_keyed t kl :
  Forall (λ p, TranscriptMessage.timestamp p.2 = JNum p.1) kl →
  filter (λ m, TranscriptMessage.timestamp m = JNum t) (snd <$> kl)
  = snd <$> filter (λ p : Z * TranscriptMessage.t, p.1 = t) kl.
Proof.
  induction 1 as [|p kl Hp _ IH]; [done|].
  rewrite fmap_cons, !filter_cons, IH.
  destruct (decide (p.1 = t)) as [E|E].
  - rewrite decide_True by (by rewrite Hp, E). done.
  - rewrite decide_False; [done|]. rewrite Hp. by intros [= ?].
Qed.

Lemma sorted_keyed kl :
  Forall (λ p, TranscriptMessage.timestamp p.2 = JNum p.1) kl →
  StronglySorted (λ p q : Z * TranscriptMessage.t, (p.1 ≤ q.1)%Z) kl →
  StronglySorted not_later (snd <$> kl).
Proof.
  intros Hk Hs. induction Hs as [|p kl Hs IH Hp]; [constructor|].
  apply Forall_cons in Hk as [Hkp Hk]. rewrite fmap_cons.
  constructor; [by apply IH|].
  apply Forall_fmap, Forall_forall. intros q Hq. simpl.
  rewrite Forall_forall in Hp, Hk.
  exists p.1, q.1. split_and!; [done|by apply Hk|by apply Hp].
Qed.

Lemma sortedMessages_spec l :
  Forall (λ m, is_Some (timestamp_number m)) l →
  ∃ s, sortedMessages l = Some s
       ∧ s ≡ₚ l
       ∧ StronglySorted not_later s
       ∧ ∀ t, filter (λ m, TranscriptMessage.timestamp m = JNum t) s
              = filter (λ m, TranscriptMessage.timestamp m = JNum t) l.
Proof.
  intros Hnum. destruct (keyed_total l Hnum) as [kl Hkl].
  destruct (keyed_Some l kl Hkl) as [Hsnd Hkeys].
  assert (Hskeys : Forall (λ p, TranscriptMessage.timestamp p.2 = JNum p.1)
                     (stable_sort kl)).
  { by rewrite stable_sort_Permutation. }
  exists (snd <$> stable_sort kl). split_and!.
  - unfold sortedMessages. by rewrite Hkl.
  - by rewrite stable_sort_Permutation, Hsnd.
  - apply sorted_keyed; [done|apply stable_sort_sorted].
  - intros t. rewrite filter_keyed, stable_sort_filter by done.
    by rewrite <- filter_keyed, Hsnd.
Qed.

(** X13: the conversation view is the stored list ordered by time.  For a
    store whose timestamps are numbers, [sortedMessages] returns a list that
    holds exactly the stored entries, in which no entry is later in time
    than one after it, and in which entries with equal timestamps keep the
    order they have in the store. *)
Theorem X13_sortedMessages_stable_sort_by_timestamp :
  ∀ (l : list TranscriptMessage.t),
    Forall (λ m, is_Some (timestamp_number m)) l →
    ∃ s, sortedMessages l = Some s
         ∧ s ≡ₚ l
         ∧ StronglySorted not_later s
         ∧ ∀ t, filter (λ m, TranscriptMessage.timestamp m = JNum t) s
                = filter (λ m, TranscriptMessage.timestamp m = JNum t) l.
Proof. intros l. apply sortedMessages_spec. Qed.

Lemma X13_sortedMessages_witness :
  Forall (λ m, is_Some (timestamp_number m)) out_of_order
  ∧ TranscriptMessage.id <$> default [] (sortedMessages out_of_order)
    = ["user-1"; "assistant-1"; "user-2"]
  ∧ sortedMessages out_of_order ≠ None.
Proof.
  assert (H : Forall (λ m, is_Some (timestamp_number m)) out_of_order).
  { unfold out_of_order. repeat (apply Forall_cons; split; [by eexists|]).
    apply Forall_nil_2. }
  split; [exact H|]. split; [by vm_compute|].
  destruct (X13_sortedMessages_stable_sort_by_timestamp out_of_order H)
    as (s & Hs & _).
  rewrite Hs. discriminate.
Defined.

(** ** The trace of transport operations *)







(** ** The mute flag and the microphone *)






(** ** The view of a reachable store *)

Lemma timestamps_typed_numbers evs :
  timestamps_typed evs →
  Forall (λ m, is_Some (timestamp_number m)) (messages (app (run initial evs))).
Proof.
  induction evs as [|ev evs IH] using rev_ind; intros Hty.
  - vm_compute. apply Forall_nil_2.
  - apply Forall_app in Hty as [Hevs Hev]. apply Forall_cons in Hev as [Hev _].
    rewrite run_snoc.
    destruct (step_messages (run initial evs) ev)
      as [->|[->|(now & d & -> & Ht & ->)]];
      [by apply IH|apply Forall_nil_2|].
    apply Forall_forall. intros m Hm.
    destruct (handleTranscript_elem _ _ _ Hm) as [->|Hin].
    + unfold timestamp_number, buildTranscript, coalesce. simpl.
      destruct (Hev Ht) as [-> | [n ->]]; simpl; eauto.
    + specialize (IH Hevs). rewrite Forall_forall in IH. by apply IH.
Qed.

(** X16: in every reachable state the conversation view shows each stored
    entry exactly once.  When the transcript messages received so far
    carried a number as [timestamp] or none, the view of the store is
    defined, is a rearrangement of the store (same entries, same number of
    them), is ordered by time, and its ids, used as list keys, are pairwise
    distinct. *)
Theorem X16_view_of_reachable_store :
  ∀ (evs : list Event),
    timestamps_typed evs →
    ∃ s, sortedMessages (messages (app (run initial evs))) = Some s
         ∧ s ≡ₚ messages (app (run initial evs))
         ∧ length s = length (messages (app (run initial evs)))
         ∧ StronglySorted not_later s
         ∧ NoDup (TranscriptMessage.id <$> s).
Proof.
  intros evs Hty.
  destruct (sortedMessages_spec _ (timestamps_typed_numbers evs Hty))
    as (s & Hs & Hp & Hsorted & _).
  exists s. split_and!; [done|done|by rewrite Hp|done|].
  rewrite Hp. apply reachable_ids_NoDup. by exists evs.
Qed.

Lemma X16_view_witness :
  timestamps_typed two_untimed
  ∧ TranscriptMessage.id
      <$> default [] (sortedMessages (messages (app (run initial two_untimed))))
    = ["assistant-1"; "user-1"]
  ∧ sortedMessages (messages (app (run initial two_untimed))) ≠ None.
Proof.
  assert (H : timestamps_typed two_untimed).
  { unfold timestamps_typed, two_untimed.
    repeat (apply Forall_cons; split; [first [exact I|intros _; left; by vm_compute]|]).
    apply Forall_nil_2. }
  split; [exact H|]. split; [by vm_compute|].
  destruct (X16_view_of_reachable_store two_untimed H) as (s & Hs & _).
  rewrite Hs. discriminate.
Defined.

(** ** Retrying a teardown *)

(** X17: a teardown that failed can be retried.  Whatever state [disconnect]
    is called in and however its [leave]/[destroy] settle, a following
    [disconnect] whose teardown resolves ends with the state [disconnected],
    the pipeline status ['idle'] and no call object in the ref; after a
    rejection the call object was kept in the ref, so the retry asks it to
    leave again. *)
Theorem X17_failed_teardown_can_be_retried :
  ∀ (w : World) (t : Teardown),
    connectionStatus (hook (disconnect TeardownOk (disconnect t w))) = disconnected
    ∧ pipelineStatus (hook (disconnect TeardownOk (disconnect t w))) = JStr "idle"
    ∧ callObjectRef (hook (disconnect TeardownOk (disconnect t w))) = None
    ∧ (is_Some (callObjectRef (hook w)) → t ≠ TeardownOk →
       callObjectRef (hook (disconnect t w)) = callObjectRef (hook w)
       ∧ ∃ ops, transportLog (env (disconnect TeardownOk (disconnect t w)))
                = transportLog (env (disconnect t w)) ++ [OpLeave; OpDestroy]
                ∧ transportLog (env (disconnect t w))
                  = transportLog (env w) ++ OpLeave :: ops).
Proof.
  intros w t. unfold disconnect.
  destruct (callObjectRef (hook w)) as [call|] eqn:E; [destruct t|]; simpl;
    rewrite ?E; simpl; split_and!; try done.
  - intros _ _. split; [done|]. exists []. by rewrite <- !app_assoc.
  - intros _ _. split; [done|]. exists [OpDestroy]. by rewrite <- !app_assoc.
Qed.

Lemma X17_retry_witness :
  is_Some (callObjectRef (hook w_listening))
  ∧ LeaveRejects ≠ TeardownOk
  ∧ connectionStatus (hook (disconnect LeaveRejects w_listening)) = connected
  ∧ connectionStatus
      (hook (disconnect TeardownOk (disconnect LeaveRejects w_listening)))
    = disconnected
  ∧ callObjectRef (hook (disconnect LeaveRejects w_listening))
    = callObjectRef (hook w_listening).
Proof.
  assert (H : is_Some (callObjectRef (hook w_listening))) by (vm_compute; eauto).
  assert (N : LeaveRejects ≠ TeardownOk) by done.
  destruct (X17_failed_teardown_can_be_retried w_listening LeaveRejects)
    as (H1 & _ & _ & H4).
  split; [exact H|]. split; [exact N|]. split; [by vm_compute|].
  split; [exact H1|]. exact (proj1 (H4 H N)).
Defined.

(** ** Without a session *)

Lemma step_untouched w ev :
  untouched w →
  (∀ s, ev = SessionCreated s → s = "") →
  untouched (step w ev).
Proof.
  intros (Hh & He & Hs & Hm & Hl) Hev.
  assert (Hhandle : untouched (handle ev w)).
  { destruct ev; simpl.
    - rewrite (Hev session_id eq_refl). by split_and!.
    - unfold connect. rewrite Hs, orb_true_r. by split_and!.
    - rewrite He. simpl. by split_and!.
    - rewrite He. simpl. by split_and!.
    - unfold has_transport. rewrite Hh. simpl. by split_and!.
    - unfold has_transport. rewrite Hh. simpl. by split_and!.
    - unfold has_transport. rewrite Hh. simpl. by split_and!.
    - unfold has_transport. rewrite Hh. simpl. by split_and!.
    - unfold disconnect. rewrite Hh. simpl. unfold untouched. simpl.
      rewrite Hh. by split_and!.
    - unfold toggleMute. rewrite Hh. simpl. by split_and!. }
  destruct Hhandle as (Hh' & He' & Hs' & Hm' & Hl').
  unfold untouched, step.
  rewrite hook_commit, env_commit, (proj1 (commit_app_rest _)).
  split_and!; [done..| |].
  - destruct (commit_messages (handle ev w)) as [-> | ->]; done.
  - destruct (commit_logs (handle ev w)) as [-> | ->]; done.
Qed.

(** X18: without a session id nothing can be started.  As long as the
    session request has not answered with a non-empty id, whatever the user
    and the environment do, the state stays [disconnected] and ['idle'],
    no credential request is issued, no call object is created, no
    transport operation happens and both stores stay empty. *)
Theorem X18_no_session_no_connection :
  ∀ (evs : list Event),
    sessionless evs →
    hook (run initial evs) = mkHook disconnected (JStr "idle") false None
    ∧ env (run initial evs) = mkEnv 0 0 []
    ∧ messages (app (run initial evs)) = []
    ∧ logs (app (run initial evs)) = [].
Proof.
  intros evs Hevs.
  assert (untouched (run initial evs)) as (Hh & He & _ & Hm & Hl);
    [|by split_and!].
  induction evs as [|ev evs IH] using rev_ind.
  - by vm_compute.
  - apply Forall_app in Hevs as [Hevs Hev]. apply Forall_cons in Hev as [Hev _].
    rewrite run_snoc. apply step_untouched; [by apply IH|].
    by intros s ->.
Qed.

Lemma X18_no_session_witness :
  sessionless [ConnectCalled; SessionCreated ""; ConnectCalled;
               FetchSettled true TeardownOk; JoinedMeeting; ToggleMuteCalled;
               DisconnectCalled TeardownOk]
  ∧ env (run initial
           [ConnectCalled; SessionCreated ""; ConnectCalled;
            FetchSettled true TeardownOk; JoinedMeeting; ToggleMuteCalled;
            DisconnectCalled TeardownOk])
    = mkEnv 0 0 [].
Proof.
  assert (H : sessionless
                [ConnectCalled; SessionCreated ""; ConnectCalled;
                 FetchSettled true TeardownOk; JoinedMeeting; ToggleMuteCalled;
                 DisconnectCalled TeardownOk]).
  { unfold sessionless.
    repeat (apply Forall_cons; split; [first [exact I|reflexivity]|]).
    apply Forall_nil_2. }
  split; [exact H|].
  exact (proj1 (proj2 (X18_no_session_no_connection _ H))).
Defined.
